(** * Search-intent streaming endpoint: a shallow embedding of [api/intent.js]

    The endpoint sequences a search call, a fan-out of content extraction
    calls, prompt assembly and a relay of the upstream completion stream.
    The embedding keeps the shapes of the source: JavaScript strings are
    sequences of UTF-16 code units, an awaited promise is a settled value,
    the stream controller is a small state machine and the relay loop is
    iterated with explicit fuel. *)

From Stdlib Require Import String Ascii DecimalString.
From stdpp Require Import base numbers list option.

Local Open Scope nat_scope.

(** ** JavaScript strings *)

Module Js.

(** A string is the list of its UTF-16 code units, so that [length] is the
    source's [.length] and [take n] its [.slice(0, n)]. *)
Definition str : Type := list N.

(** Source literals are written as UTF-8 text and decoded to code units.
    Code points above the basic plane become a surrogate pair. *)
Definition cont (b : N) : N := N.land b 63.

Definition units_of_code_point (cp : N) : list N :=
  if (cp <? 65536)%N then [cp]
  else
    let v := (cp - 65536)%N in
    [(55296 + N.shiftr v 10)%N; (56320 + N.land v 1023)%N].

Fixpoint utf16_of_utf8 (bs : list N) : list N :=
  match bs with
  | [] => []
  | b0 :: r0 =>
      if (b0 <? 128)%N then b0 :: utf16_of_utf8 r0
      else
        match r0 with
        | [] => [65533%N]
        | b1 :: r1 =>
            if (b0 <? 224)%N then
              (N.shiftl (N.land b0 31) 6 + cont b1)%N :: utf16_of_utf8 r1
            else
              match r1 with
              | [] => [65533%N]
              | b2 :: r2 =>
                  if (b0 <? 240)%N then
                    (N.shiftl (N.land b0 15) 12 + N.shiftl (cont b1) 6
                     + cont b2)%N :: utf16_of_utf8 r2
                  else
                    match r2 with
                    | [] => [65533%N]
                    | b3 :: r3 =>
                        units_of_code_point
                          (N.shiftl (N.land b0 7) 18 + N.shiftl (cont b1) 12
                           + N.shiftl (cont b2) 6 + cont b3)%N
                        ++ utf16_of_utf8 r3
                    end
              end
        end
  end.

Definition lit (s : string) : str :=
  utf16_of_utf8 (N_of_ascii <$> list_ascii_of_string s).

(** The two characters that a literal cannot spell directly. *)
Definition nl : str := [10%N].
Definition dq : str := [34%N].

(** [String(n)] for a non-negative integer. *)
Definition of_nat (n : nat) : str :=
  lit (NilEmpty.string_of_uint (Nat.to_uint n)).

(** [parts.join(sep)] *)
Fixpoint join (sep : str) (parts : list str) : str :=
  match parts with
  | [] => []
  | [p] => p
  | p :: rest => p ++ sep ++ join sep rest
  end.

(** [s.trim()]: white space and line terminators are removed at both ends. *)
Definition is_space (c : N) : bool :=
  bool_decide (c ∈ [9; 10; 11; 12; 13; 32; 160; 5760; 8232; 8233; 8239;
                    8287; 12288; 65279]%N)
  || ((8192 <=? c)%N && (c <=? 8202)%N).

Fixpoint trim_start (s : str) : str :=
  match s with
  | c :: r => if is_space c then trim_start r else s
  | [] => []
  end.

Definition trim (s : str) : str :=
  reverse (trim_start (reverse (trim_start s))).

(** Truthiness of a value that is a string, [undefined] or [null]. *)
Definition truthy (v : option str) : bool :=
  match v with
  | Some (_ :: _) => true
  | _ => false
  end.

(** [a || b] on such values, when [b] is a string. *)
Definition or_else (a : option str) (b : str) : str :=
  match a with
  | Some (c :: r) => c :: r
  | _ => b
  end.

(** [a || b] when [b] may itself be [undefined]. *)
Definition or (a b : option str) : option str :=
  if truthy a then a else b.

(** A value interpolated into a template literal. *)
Definition show (v : option str) : str :=
  match v with
  | Some s => s
  | None => lit "undefined"
  end.

(** An [Error] object, as far as the source looks at it. *)
Record error : Type := Error { name : str; message : str }.

(** What awaiting a promise yields: its value, or the thrown reason. *)
Inductive settled (A : Type) : Type :=
  | fulfilled (value : A)
  | rejected (reason : error).
Arguments fulfilled {A} value.
Arguments rejected {A} reason.

End Js.

(** ** The platform: responses, body streams, fetch *)

(** One result of [reader.read()]: [{done: false, value}] or [{done: true}]. *)
Inductive chunk : Type :=
  | Value (bytes : list N)
  | Done.

(** A read settles [latency] milliseconds after it was issued. *)
Record read : Type := Read { latency : N; result : Js.settled chunk }.

(** A search hit, as the provider lists it under [organic]. A field the
    provider left out reads as [undefined], here [None]; the code checks
    none of them. *)
Record SearchResult : Type :=
  { title : option Js.str; link : option Js.str; snippet : option Js.str }.

(** The parsed search body. An [organic] entry may be JSON [null]. *)
Record SearchData : Type :=
  { organic : option (list (option SearchResult)) }.

(** A response offers its status, [text()], [json()] ([None] when the
    parsed value is JSON [null]) and its [body]: [None] for a response
    without one, else a stream whose successive reads settle as listed;
    when the list is exhausted the read never settles. *)
Record Response : Type :=
  { status : nat;
    text : Js.settled Js.str;
    json : Js.settled (option SearchData);
    body : option (list read) }.

(** [res.ok] is the platform's test for a status in the range 200-299. *)
Definition ok (res : Response) : bool :=
  (200 <=? status res) && (status res <=? 299).

Definition AbortError : Js.error :=
  Js.Error (Js.lit "AbortError") (Js.lit "The operation was aborted").

Definition TypeError (msg : string) : Js.error :=
  Js.Error (Js.lit "TypeError") (Js.lit msg).

(** The requests the endpoint sends, with the parts of each that vary or
    that the providers' contracts name. *)
Inductive request : Type :=
  | SearchRequest (apiKey q : Js.str) (num : nat) (gl hl : Js.str)
  | ExtractRequest (url : Js.str) (bearer : option Js.str)
  | CompletionRequest (url apiKey model system user : Js.str).

(** What is put on the output stream. A status frame stands for the bytes
    of [data: <chunk>] followed by a blank line, where the chunk's
    [delta.content] is [text]. *)
Inductive frame : Type :=
  | Status (text : Js.str)
  | KeepAlive
  | Relayed (bytes : list N).

(** Observable actions, in the order they happen. The flag of a controller
    operation tells whether the stream accepted it. *)
Inductive event : Type :=
  | Fetched (req : request)
  | Slept (ms : nat)
  | Enqueue (f : frame) (accepted : bool)
  | Close (accepted : bool)
  | ConsoleError.

(** A single request guarded by its own abort timer: the provider answers
    after [elapsed] milliseconds with [outcome]. *)
Record exchange : Type := Exchange { elapsed : N; outcome : Js.settled Response }.

(** [fetch] with a signal that is aborted [timeout] milliseconds later.
    The timer is armed before the request is sent, so an answer is
    delivered only when it arrives before the timer fires. *)
Definition fetch_within (timeout : N) (x : exchange) : Js.settled Response :=
  if (timeout <=? elapsed x)%N then Js.rejected AbortError else outcome x.

(** ** Resilient fetch (source lines 13-30) *)

Definition acceptable (res : Response) : bool :=
  ok res
  || ((400 <=? status res) && (status res <? 500)
      && negb (status res =? 429)).

Definition is_abort (e : Js.error) : bool :=
  bool_decide (Js.name e = Js.lit "AbortError").

Definition backoff (i : nat) : nat := 1000 * (i + 1).

(** The [for] loop from iteration [i] on, with [k] iterations left before
    the condition [i <= maxRetries] fails. [fetch i] is what the [i]-th call
    settles to. When the loop runs out the function returns [undefined]. *)
Fixpoint attempts (req : request) (fetch : nat -> Js.settled Response)
    (maxRetries : nat) (k i : nat)
  : option (Js.settled Response) * list event :=
  match k with
  | 0 => (None, [])
  | S k' =>
      let retry :=
        let '(r, evs) := attempts req fetch maxRetries k' (S i) in
        (r, Fetched req :: Slept (backoff i) :: evs) in
      match fetch i with
      | Js.fulfilled res =>
          if acceptable res then (Some (Js.fulfilled res), [Fetched req])
          else if i =? maxRetries then (Some (Js.fulfilled res), [Fetched req])
          else retry
      | Js.rejected e =>
          if is_abort e then (Some (Js.rejected e), [Fetched req])
          else if i =? maxRetries then (Some (Js.rejected e), [Fetched req])
          else retry
      end
  end.

Definition fetchWithRetry (req : request) (fetch : nat -> Js.settled Response)
    (maxRetries : nat) : option (Js.settled Response) * list event :=
  attempts req fetch maxRetries (S maxRetries) 0.

(** ** Search stage (source lines 35-67) *)

Definition SEARCH_TIMEOUT : N := 8000.

Definition fetchSerperSearch (x : exchange) (query apiKey : option Js.str)
  : option (list (option SearchResult)) * list event :=
  if negb (Js.truthy query) || negb (Js.truthy apiKey) then (None, [])
  else
    let sent :=
      [Fetched (SearchRequest (default [] apiKey) (default [] query) 10
                  (Js.lit "us") (Js.lit "en"))] in
    match fetch_within SEARCH_TIMEOUT x with
    | Js.rejected _ => (None, sent ++ [ConsoleError])
    | Js.fulfilled response =>
        if negb (ok response) then (None, sent)
        else
          match json response with
          | Js.rejected _ => (None, sent ++ [ConsoleError])
          | Js.fulfilled None => (None, sent ++ [ConsoleError])
          | Js.fulfilled (Some data) =>
              match organic data with
              | Some results => (Some results, sent)
              | None => (Some [], sent)
              end
          end
    end.

(** ** Content extraction stage (source lines 73-102) *)

Definition EXTRACT_TIMEOUT : N := 12000.
Definition MAX_CHARS : nat := N.to_nat 35000.
Definition truncation_marker : Js.str :=
  Js.nl ++ Js.nl ++ Js.lit "...(truncated)".

Definition fetchJinaContent (x : exchange) (url : Js.str) (apiKey : option Js.str)
  : option Js.str * list event :=
  match url with
  | [] => (None, [])
  | _ :: _ =>
      let sent :=
        [Fetched (ExtractRequest url (if Js.truthy apiKey then apiKey else None))] in
      match fetch_within EXTRACT_TIMEOUT x with
      | Js.rejected _ => (None, sent)
      | Js.fulfilled response =>
          if negb (ok response) then (None, sent)
          else
            match text response with
            | Js.rejected _ => (None, sent)
            | Js.fulfilled text =>
                (Some (if MAX_CHARS <? length text
                       then take MAX_CHARS text ++ truncation_marker
                       else text), sent)
            end
      end
  end.

(** ** The output stream controller *)

Record state : Type := State { trace : list event; closed : bool }.

Definition initial : state := State [] false.

Definition emit (evs : list event) (s : state) : state :=
  State (trace s ++ evs) (closed s).

Definition stream_closed : Js.error :=
  TypeError "Invalid state: Controller is already closed".

(** [controller.enqueue(f)] and [controller.close()] throw on a stream that
    is already closed. *)
Definition enqueue (f : frame) (s : state) : Js.settled unit * state :=
  if closed s then (Js.rejected stream_closed, emit [Enqueue f false] s)
  else (Js.fulfilled (), emit [Enqueue f true] s).

Definition close (s : state) : Js.settled unit * state :=
  if closed s then (Js.rejected stream_closed, emit [Close false] s)
  else (Js.fulfilled (), State (trace s ++ [Close true]) true).

(** Status emitter (source lines 135-144): a failed write is logged and
    swallowed. *)
Definition sendStatus (text : Js.str) (s : state) : state :=
  match enqueue (Status text) s with
  | (Js.fulfilled _, s') => s'
  | (Js.rejected _, s') => emit [ConsoleError] s'
  end.

(** The frames the client receives, and the number of times the stream
    was closed. *)
Definition delivered (tr : list event) : list frame :=
  omap (fun e => match e with Enqueue f true => Some f | _ => None end) tr.

Definition is_closing (e : event) : bool :=
  match e with Close true => true | _ => false end.

Definition closings (tr : list event) : nat :=
  length (filter is_closing tr).

Definition requests (tr : list event) : list request :=
  omap (fun e => match e with Fetched r => Some r | _ => None end) tr.

(** ** Status texts and prompt *)

Definition msg_no_keyword : Js.str :=
  Js.lit "> ❌ **错误：未提供关键词，分析无法开始。**" ++ Js.nl ++ Js.nl.

Definition msg_searching (keyword : Js.str) : Js.str :=
  Js.lit "> 🔍 **正在分析 Google (US) 搜索结果：** " ++ Js.dq ++ keyword
  ++ Js.dq ++ Js.lit "..." ++ Js.nl ++ Js.nl.

Definition msg_no_search_api : Js.str :=
  Js.lit "> ⚠️ **未配置搜索 API，仅能进行理论分析...**" ++ Js.nl ++ Js.nl.

Definition msg_captured (n : nat) : Js.str :=
  Js.lit "> 📖 **捕获 Top " ++ Js.of_nat n
  ++ Js.lit " 排名页面，正在全网并行抓取内容...**" ++ Js.nl ++ Js.nl.

Definition msg_collected : Js.str :=
  Js.lit "> ✅ **数据采集完成，AI 正在构建意图分析模型...**" ++ Js.nl ++ Js.nl
  ++ Js.lit "---" ++ Js.nl ++ Js.nl.

Definition msg_no_data : Js.str :=
  Js.lit "> ⚠️ **未获取到实时数据，将进行通用理论分析...**" ++ Js.nl ++ Js.nl
  ++ Js.lit "---" ++ Js.nl ++ Js.nl.

Definition msg_ai_error (status : nat) (errText : Js.str) : Js.str :=
  Js.nl ++ Js.nl ++ Js.lit "❌ **AI Error**: " ++ Js.of_nat status ++ Js.nl
  ++ errText.

Definition msg_system_error (message : Js.str) : Js.str :=
  Js.nl ++ Js.nl ++ Js.lit "❌ **System Error**: " ++ message.

Definition context_header : Js.str :=
  Js.lit "以下是该关键词在 Google (US) 首页的实际排名结果及内容：" ++ Js.nl.

Definition fallback_context : Js.str :=
  Js.lit "（未获取到实时搜索结果，请基于您的知识库进行通用分析）".

Definition default_system_prompt : Js.str :=
  Js.lit "You are a Search Intent Analysis Expert. Analyze the provided search results to determine user intent, content gaps, and SEO strategy.".

Definition default_model : Js.str := Js.lit "gemini-2.0-flash-exp".

(** Prompt builder (source lines 200-221). *)
Definition userMessage (keyword searchContext : Js.str) : Js.str :=
  Js.trim
    (Js.nl
     ++ Js.lit "作为搜索意图分析专家，请根据以下数据分析关键词 " ++ Js.dq ++ keyword ++ Js.dq ++ Js.lit " 的用户意图。" ++ Js.nl
     ++ Js.nl
     ++ Js.lit "【实时 SERP 数据】:" ++ Js.nl
     ++ searchContext ++ Js.nl
     ++ Js.nl
     ++ Js.lit "请输出一份详细的意图分析报告，包含以下部分（请使用 Markdown 格式）：" ++ Js.nl
     ++ Js.nl
     ++ Js.lit "1.  **意图核心 (The " ++ Js.dq ++ Js.lit "Why" ++ Js.dq ++ Js.lit ")**: " ++ Js.nl
     ++ Js.lit "    - 用户搜索这个词的根本目的是什么？(Do, Know, Go, Buy)" ++ Js.nl
     ++ Js.lit "    - 显性需求 vs 隐性需求。" ++ Js.nl
     ++ Js.lit "2.  **SERP 特征分析**: " ++ Js.nl
     ++ Js.lit "    - Google 在首页展示了什么类型的内容（视频、列表、指南、工具、产品页）？这意味着 Google 认为用户想要什么形式的答案？" ++ Js.nl
     ++ Js.lit "3.  **受众画像**:" ++ Js.nl
     ++ Js.lit "    - 搜索者的专业程度（小白 vs 专家）。" ++ Js.nl
     ++ Js.lit "    - 处于购买漏斗的哪个阶段？" ++ Js.nl
     ++ Js.lit "4.  **内容竞争格局**:" ++ Js.nl
     ++ Js.lit "    - 当前排名靠前的页面有哪些共同点？" ++ Js.nl
     ++ Js.lit "    - 它们的优点和缺点是什么？" ++ Js.nl
     ++ Js.lit "5.  **差异化机会 (The " ++ Js.dq ++ Js.lit "Gap" ++ Js.dq ++ Js.lit ")**:" ++ Js.nl
     ++ Js.lit "    - 如果要在这个词上获得排名，我们需要提供什么独特的价值或内容角度，是当前 Top 10 结果没有覆盖到的？" ++ Js.nl
     ++ Js.lit "        ").

(** ** Fan-out aggregator (source lines 165-197) *)

(** What a task resolves to. [content] is [undefined] when the extraction
    gave no text and the hit has no snippet. *)
Module Enriched.
Record t : Type :=
  { title : option Js.str; link : option Js.str; snippet : option Js.str;
    content : option Js.str }.
End Enriched.

Definition EXCERPT_CHARS : nat := 2000.
Definition TOP_RESULTS : nat := 8.

(** One concurrent task. Reading [res.link] of a [null] entry throws, so
    that task rejects before any request is sent. A missing link reaches
    [fetchJinaContent] as [undefined], which its first test treats like the
    empty string. *)
Definition contentTask (x : exchange) (jinaKey : option Js.str)
    (res : option SearchResult) : Js.settled Enriched.t * list event :=
  match res with
  | None =>
      (Js.rejected (TypeError "Cannot read properties of null (reading 'link')"),
       [])
  | Some res =>
      let '(markdown, evs) :=
        fetchJinaContent x (default [] (link res)) jinaKey in
      (Js.fulfilled
         {| Enriched.title := title res;
            Enriched.link := link res;
            Enriched.snippet := snippet res;
            Enriched.content := Js.or markdown (snippet res) |},
       evs)
  end.

(** The text of a block around its excerpt. *)
Definition blockText (index : nat) (res : Enriched.t) (excerpt : Js.str) : Js.str :=
  Js.lit "[Result #" ++ Js.of_nat (index + 1) ++ Js.lit "]" ++ Js.nl
  ++ Js.lit "Title: " ++ Js.show (Enriched.title res) ++ Js.nl
  ++ Js.lit "URL: " ++ Js.show (Enriched.link res) ++ Js.nl
  ++ Js.lit "Snippet: " ++ Js.show (Enriched.snippet res) ++ Js.nl
  ++ Js.lit "Full Content (Excerpt): " ++ excerpt ++ Js.nl.

Definition no_slice : Js.error :=
  TypeError "Cannot read properties of undefined (reading 'slice')".

(** The template of source line 187: [res.content.slice] throws when the
    content is [undefined]. *)
Definition block (index : nat) (res : Enriched.t) : Js.settled Js.str :=
  match Enriched.content res with
  | Some content => Js.fulfilled (blockText index res (take EXCERPT_CHARS content))
  | None => Js.rejected no_slice
  end.

(** The callback of [fetchedResults.map]. *)
Definition render (index : nat) (p : Js.settled Enriched.t)
  : Js.settled (option Js.str) :=
  match p with
  | Js.fulfilled res =>
      match block index res with
      | Js.fulfilled text => Js.fulfilled (Some text)
      | Js.rejected error => Js.rejected error
      end
  | Js.rejected _ => Js.fulfilled None
  end.

(** [l.map(f)] for a callback that may throw: the elements are visited in
    order, from index [i] on, and the first throw ends the call. *)
Fixpoint mapIndexed {A B} (f : nat -> A -> Js.settled B) (i : nat) (l : list A)
  : Js.settled (list B) :=
  match l with
  | [] => Js.fulfilled []
  | a :: l' =>
      match f i a with
      | Js.rejected error => Js.rejected error
      | Js.fulfilled b =>
          match mapIndexed f (S i) l' with
          | Js.rejected error => Js.rejected error
          | Js.fulfilled bs => Js.fulfilled (b :: bs)
          end
      end
  end.

(** [.filter(Boolean)] keeps the entries that are neither [null] nor the
    empty string. *)
Definition Boolean (v : option Js.str) : option Js.str :=
  if Js.truthy v then v else None.

Definition separator : Js.str :=
  Js.nl ++ Js.nl ++ Js.lit "====================" ++ Js.nl ++ Js.nl.

Definition blocks (fetchedResults : list (Js.settled Enriched.t))
  : Js.settled (list Js.str) :=
  match mapIndexed render 0 fetchedResults with
  | Js.fulfilled rendered => Js.fulfilled (omap Boolean rendered)
  | Js.rejected error => Js.rejected error
  end.

Definition references (fetchedResults : list (Js.settled Enriched.t))
  : Js.settled Js.str :=
  match blocks fetchedResults with
  | Js.fulfilled kept => Js.fulfilled (Js.join separator kept)
  | Js.rejected error => Js.rejected error
  end.

(** ** The environment of one request *)

Record env : Type :=
  { GEMINI_API_KEY : option Js.str;
    GEMINI_BASE_URL : option Js.str;
    SEARCH_INTENT_PROMPT : option Js.str;
    SERPER_API_KEY : option Js.str;
    JINA_API_KEY : option Js.str;
    AI_MODEL_NAME : option Js.str }.

(** How the three providers behave during the request: the search exchange,
    the extraction exchange of the task at each rank, and what each
    successive completion request settles to. The two-minute abort timer of
    the completion request shows up as an [AbortError] among the latter. *)
Record world : Type :=
  { search : exchange;
    extract : nat -> exchange;
    completion : nat -> Js.settled Response }.

Definition allSettled (w : world) (jinaKey : option Js.str)
    (topResults : list (option SearchResult))
  : list (Js.settled Enriched.t * list event) :=
  imap (fun i res => contentTask (extract w i) jinaKey res) topResults.

(** Source lines 165-197: from [searchResults] to [searchContext]. When
    the assembly of the references throws, the error leaves the stage with
    the stream as it was after the tasks. *)
Definition aggregate (w : world) (e : env)
    (searchResults : option (list (option SearchResult))) (s : state)
  : Js.settled Js.str * state :=
  match searchResults with
  | Some ((_ :: _) as searchResults) =>
      let s := sendStatus (msg_captured (length searchResults)) s in
      let topResults := take TOP_RESULTS searchResults in
      let tasks := allSettled w (JINA_API_KEY e) topResults in
      let s := emit (concat (snd <$> tasks)) s in
      let fetchedResults := fst <$> tasks in
      match references fetchedResults with
      | Js.fulfilled references =>
          (Js.fulfilled (context_header ++ references),
           sendStatus msg_collected s)
      | Js.rejected error => (Js.rejected error, s)
      end
  | _ => (Js.fulfilled fallback_context, sendStatus msg_no_data s)
  end.

(** Source lines 156-163: [searchResults] starts as the empty list and is
    replaced by the search outcome when a search key is configured. *)
Definition searchStage (w : world) (e : env) (keyword : option Js.str) (s : state)
  : option (list (option SearchResult)) * state :=
  if Js.truthy (SERPER_API_KEY e) then
    let '(r, evs) := fetchSerperSearch (search w) keyword (SERPER_API_KEY e) in
    (r, emit evs s)
  else (Some [], sendStatus msg_no_search_api s).

(** Search and fan-out: yields [searchContext], or the error thrown. *)
Definition collect (w : world) (e : env) (keyword : option Js.str) (s : state)
  : Js.settled Js.str * state :=
  let '(searchResults, s) := searchStage w e keyword s in
  aggregate w e searchResults s.

(** ** Upstream relay (source lines 256-283) *)

Definition KEEP_ALIVE_MS : N := 15000.
Definition KEEP_ALIVE : Js.error := Js.Error (Js.lit "Error") (Js.lit "KEEP_ALIVE").

(** The loop's variables: the read in flight ([None] when it will never
    settle) and the reads the reader has not been asked for yet. *)
Record relay_state : Type :=
  { readPromise : option read; reader : list read }.

(** [reader.read()] *)
Definition read_next (reader : list read) : relay_state :=
  {| readPromise := head reader; reader := tail reader |}.

Inductive flow : Type :=
  | Continue (r : relay_state) (s : state)
  | Break (s : state)
  | Throw (e : Js.error) (s : state).

(** The [catch] clause inside the loop. *)
Definition on_error (error : Js.error) (r : relay_state) (s : state) : flow :=
  if bool_decide (Js.message error = Js.lit "KEEP_ALIVE") then
    match enqueue KeepAlive s with
    | (Js.fulfilled _, s') => Continue r s'
    | (Js.rejected e, s') => Throw e s'
    end
  else Throw error s.

(** One turn of the [while (true)] loop: the read in flight is raced
    against a fresh timer. A read that settles no later than the timer wins
    the race. *)
Definition iteration (r : relay_state) (s : state) : flow :=
  match readPromise r with
  | Some (Read d res) =>
      if (d <=? KEEP_ALIVE_MS)%N then
        let r0 := {| readPromise := Some (Read 0 res); reader := reader r |} in
        match res with
        | Js.fulfilled Done => Break s
        | Js.fulfilled (Value value) =>
            match enqueue (Relayed value) s with
            | (Js.fulfilled _, s') => Continue (read_next (reader r)) s'
            | (Js.rejected e, s') => on_error e r0 s'
            end
        | Js.rejected e => on_error e r0 s
        end
      else
        on_error KEEP_ALIVE
          {| readPromise := Some (Read (d - KEEP_ALIVE_MS) res);
             reader := reader r |} s
  | None => on_error KEEP_ALIVE r s
  end.

(** The loop, cut off after [fuel] turns; [None] means it is still going. *)
Fixpoint relay (fuel : nat) (r : relay_state) (s : state)
  : option (Js.settled unit * state) :=
  match fuel with
  | 0 => None
  | S fuel' =>
      match iteration r s with
      | Continue r' s' => relay fuel' r' s'
      | Break s' => Some (Js.fulfilled (), s')
      | Throw e s' => Some (Js.rejected e, s')
      end
  end.

(** ** The handler (source lines 104-301) *)

Definition completionRequest (e : env) (keyword searchContext : Js.str) : request :=
  CompletionRequest
    (default [] (GEMINI_BASE_URL e) ++ Js.lit "/chat/completions")
    (default [] (GEMINI_API_KEY e))
    (Js.or_else (AI_MODEL_NAME e) default_model)
    (Js.or_else (SEARCH_INTENT_PROMPT e) default_system_prompt)
    (userMessage keyword searchContext).

(** The [try] block of [start]. *)
Definition attempt (fuel : nat) (w : world) (e : env) (keyword : option Js.str)
    (s : state) : option (Js.settled unit * state) :=
  if negb (Js.truthy keyword) then
    Some (close (sendStatus msg_no_keyword s))
  else
    let s := sendStatus (msg_searching (default [] keyword)) s in
    match collect w e keyword s with
    | (Js.rejected error, s) => Some (Js.rejected error, s)
    | (Js.fulfilled searchContext, s) =>
        let '(upstreamResponse, evs) :=
          fetchWithRetry (completionRequest e (default [] keyword) searchContext)
            (completion w) 2 in
        let s := emit evs s in
        match upstreamResponse with
        | None =>
            Some (Js.rejected
                    (TypeError "Cannot read properties of undefined (reading 'ok')"),
                  s)
        | Some (Js.rejected error) => Some (Js.rejected error, s)
        | Some (Js.fulfilled upstreamResponse) =>
            if negb (ok upstreamResponse) then
              match text upstreamResponse with
              | Js.rejected error => Some (Js.rejected error, s)
              | Js.fulfilled errText =>
                  Some (close (sendStatus
                                 (msg_ai_error (status upstreamResponse) errText)
                                 s))
              end
            else
              match body upstreamResponse with
              | None =>
                  Some (Js.rejected
                          (TypeError "Cannot read properties of null (reading 'getReader')"),
                        s)
              | Some reads => relay fuel (read_next reads) s
              end
        end
    end.

(** [start]: the [try] block, its [catch] and its [finally]. *)
Definition start (fuel : nat) (w : world) (e : env) (keyword : option Js.str)
  : option state :=
  match attempt fuel w e keyword initial with
  | None => None
  | Some (Js.fulfilled _, s) => Some (snd (close s))
  | Some (Js.rejected error, s) =>
      Some (snd (close (sendStatus (msg_system_error (Js.message error))
                          (emit [ConsoleError] s))))
  end.

(** The request: its method and what [req.json()] settles to: JSON [null]
    ([None]) or a value whose [keyword] may be missing. *)
Record Body : Type := { keyword : option Js.str }.
Record Request : Type := { method : Js.str; parsed : Js.settled (option Body) }.

Definition no_destructure : Js.error :=
  TypeError "Cannot destructure property 'keyword' of 'body' as it is null.".

(** What the handler's promise settles to: a plain response, a streaming
    response with the run of its stream, or a rejection. *)
Inductive reply : Type :=
  | Plain (status : nat) (body : Js.str)
  | Streaming (final : state)
  | Thrown (error : Js.error).

Definition handler (fuel : nat) (w : world) (e : env) (req : Request)
  : option reply :=
  if bool_decide (method req <> Js.lit "POST") then
    Some (Plain 405 (Js.lit "Method Not Allowed"))
  else
    match parsed req with
    | Js.rejected _ =>
        Some (Plain 400
                (Js.lit "{" ++ Js.dq ++ Js.lit "error" ++ Js.dq ++ Js.lit ":"
                 ++ Js.dq ++ Js.lit "Invalid JSON" ++ Js.dq ++ Js.lit "}"))
    | Js.fulfilled None => Some (Thrown no_destructure)
    | Js.fulfilled (Some body) =>
        if negb (Js.truthy (GEMINI_API_KEY e))
           || negb (Js.truthy (GEMINI_BASE_URL e)) then
          Some (Plain 500
                  (Js.lit "{" ++ Js.dq ++ Js.lit "error" ++ Js.dq ++ Js.lit ":"
                   ++ Js.dq ++ Js.lit "Missing AI Config" ++ Js.dq ++ Js.lit "}"))
        else Streaming <$> start fuel w e (keyword body)
    end.

(** ** Notions used to state the properties *)

(** An attempt after which the loop goes round again, budget permitting. *)
Definition retryable (o : Js.settled Response) : bool :=
  match o with
  | Js.fulfilled res => negb (acceptable res)
  | Js.rejected e => negb (is_abort e)
  end.

(** The trace of [j] retried attempts starting at attempt [i]. *)
Definition lead (req : request) (i j : nat) : list event :=
  flat_map (fun t => [Fetched req; Slept (backoff t)]) (seq i j).

(** The statuses the specification text calls accepted at once: 2xx, 3xx,
    and 4xx other than 429. *)
Definition spec_accepted (st : nat) : bool :=
  ((200 <=? st) && (st <? 400))
  || ((400 <=? st) && (st <? 500) && negb (st =? 429)).


(** Sample data for the worked instances. *)
Definition plain (st : nat) (t : Js.str) : Response :=
  {| status := st; text := Js.fulfilled t;
     json := Js.rejected (Js.Error (Js.lit "SyntaxError") (Js.lit "Unexpected token"));
     body := Some [] |}.

Definition ping : request := ExtractRequest (Js.lit "https://example.com/") None.

Definition busy_then_missing (i : nat) : Js.settled Response :=
  Js.fulfilled (plain (if i =? 0 then 503 else 404) []).

Definition failing_then_aborted (i : nat) : Js.settled Response :=
  if i =? 0 then Js.fulfilled (plain 500 []) else Js.rejected AbortError.

(** The fulfilled results of a settled list with their positions, counted
    from [k]. *)
Fixpoint ranked (k : nat) (l : list (Js.settled Enriched.t))
  : list (nat * Enriched.t) :=
  match l with
  | [] => []
  | Js.fulfilled res :: l' => (k, res) :: ranked (S k) l'
  | Js.rejected _ :: l' => ranked (S k) l'
  end.

Definition is_rejected {A} (p : Js.settled A) : bool :=
  match p with Js.rejected _ => true | Js.fulfilled _ => false end.

(** The number of tasks that failed. *)
Definition rejections {A} (l : list (Js.settled A)) : nat :=
  length (filter is_rejected l).

(** No fulfilled result is without content, so that line 187 can slice
    every one of them. *)
Definition has_content (p : Js.settled Enriched.t) : bool :=
  match p with
  | Js.fulfilled res =>
      match Enriched.content res with Some _ => true | None => false end
  | Js.rejected _ => true
  end.

(** The excerpt of a result that has content. *)
Definition excerpt (res : Enriched.t) : Js.str :=
  take EXCERPT_CHARS (default [] (Enriched.content res)).

(** The blocks of the fulfilled results, each under its own position. *)
Definition listed (l : list (Js.settled Enriched.t)) : list Js.str :=
  (fun ir => blockText ir.1 ir.2 (excerpt ir.2)) <$> ranked 0 l.

(** The numbering the specification text describes: the surviving blocks
    are numbered consecutively from 1. *)
Definition spec_blocks (l : list (Js.settled Enriched.t)) : list Js.str :=
  imap (fun j res => blockText j res (excerpt res)) (snd <$> ranked 0 l).

Definition long_page : Js.str := replicate (S MAX_CHARS) 97%N.

Definition page_url : Js.str := Js.lit "https://example.com/shoes".

Definition hit (name : string) : SearchResult :=
  {| title := Some (Js.lit name);
     link := Some (Js.lit "https://example.com/" ++ Js.lit name);
     snippet := Some (Js.lit "a snippet") |}.

Definition found (results : option (list (option SearchResult))) : Response :=
  {| status := 200; text := Js.fulfilled [];
     json := Js.fulfilled (Some {| organic := results |}); body := Some [] |}.

(** A 2xx answer whose body is the JSON value [null]. *)
Definition null_answer : Response :=
  {| status := 200; text := Js.fulfilled (Js.lit "null");
     json := Js.fulfilled None; body := Some [] |}.

Definition no_keys : env :=
  {| GEMINI_API_KEY := Some (Js.lit "key");
     GEMINI_BASE_URL := Some (Js.lit "https://ai.example");
     SEARCH_INTENT_PROMPT := None; SERPER_API_KEY := None;
     JINA_API_KEY := None; AI_MODEL_NAME := None |}.

Definition with_search : env :=
  {| GEMINI_API_KEY := Some (Js.lit "key");
     GEMINI_BASE_URL := Some (Js.lit "https://ai.example");
     SEARCH_INTENT_PROMPT := None; SERPER_API_KEY := Some (Js.lit "serper");
     JINA_API_KEY := None; AI_MODEL_NAME := None |}.

(** A world whose search answers with [results], whose pages all read
    "page" and whose completion endpoint answers attempt [i] with
    [answers i]. *)
Definition sample_world (results : option (list (option SearchResult)))
    (answers : nat -> Js.settled Response) : world :=
  {| search := Exchange 120 (Js.fulfilled (found results));
     extract := fun _ => Exchange 300 (Js.fulfilled (plain 200 (Js.lit "page")));
     completion := answers |}.

(** Three hits of which the second is a [null] entry, and what their
    tasks settle to. *)
Definition gapped_hits : list (option SearchResult) :=
  [Some (hit "a"); None; Some (hit "c")].

Definition gapped_settled : list (Js.settled Enriched.t) :=
  fst <$> allSettled (sample_world (Some gapped_hits) busy_then_missing) None
            gapped_hits.

Definition enrich (r : SearchResult) (content : option Js.str) : Enriched.t :=
  {| Enriched.title := title r; Enriched.link := link r;
     Enriched.snippet := snippet r; Enriched.content := content |}.

(** The stream is still open and no close has been recorded. *)
Definition open (s : state) : Prop :=
  closed s = false /\ closings (trace s) = 0.

(** The number of timer expiries a read of latency [d] lives through. *)
Definition ticks (d : N) : nat := N.to_nat ((d - 1) / KEEP_ALIVE_MS).

(** A body whose reads reach the end of the stream or an error before they
    run out. An error that carries the message of the loop's own timer is
    taken for a timer expiry by the loop and is not counted as an end. *)
Fixpoint settles (reads : list read) : bool :=
  match reads with
  | [] => false
  | Read _ (Js.fulfilled Done) :: _ => true
  | Read _ (Js.fulfilled (Value _)) :: rest => settles rest
  | Read _ (Js.rejected e) :: _ =>
      negb (bool_decide (Js.message e = Js.lit "KEEP_ALIVE"))
  end.

(** Loop turns, events and outcome of relaying such a body. *)
Fixpoint turns (reads : list read) : nat :=
  match reads with
  | [] => 0
  | Read d r :: rest =>
      ticks d + 1
      + match r with Js.fulfilled (Value _) => turns rest | _ => 0 end
  end.

Fixpoint relay_events (reads : list read) : list event :=
  match reads with
  | [] => []
  | Read d r :: rest =>
      replicate (ticks d) (Enqueue KeepAlive true)
      ++ match r with
         | Js.fulfilled (Value value) =>
             Enqueue (Relayed value) true :: relay_events rest
         | _ => []
         end
  end.

Fixpoint relay_result (reads : list read) : Js.settled unit :=
  match reads with
  | [] => Js.fulfilled ()
  | Read _ (Js.fulfilled Done) :: _ => Js.fulfilled ()
  | Read _ (Js.fulfilled (Value _)) :: rest => relay_result rest
  | Read _ (Js.rejected e) :: _ => Js.rejected e
  end.

(** The chunks the upstream produced before it ended, and the chunks the
    client was sent. *)
Fixpoint produced (reads : list read) : list (list N) :=
  match reads with
  | Read _ (Js.fulfilled (Value value)) :: rest => value :: produced rest
  | _ => []
  end.

Definition relayed (tr : list event) : list (list N) :=
  omap (fun f => match f with Relayed value => Some value | _ => None end)
    (delivered tr).

(** A body that stalls for sixteen seconds before its only chunk. *)
Definition stalled_body : list read :=
  [Read 16000 (Js.fulfilled (Value [104; 105]%N)); Read 40 (Js.fulfilled Done)].

Definition streaming (reads : list read) : Response :=
  {| status := 200; text := Js.fulfilled [];
     json := Js.rejected (Js.Error (Js.lit "SyntaxError") (Js.lit "Unexpected token"));
     body := Some reads |}.

(** How the [try] block can end: with the stream still open, or by an early
    [return] right after it closed the stream itself. *)
Definition ended (r : Js.settled unit * state) : Prop :=
  open r.2
  \/ (r.1 = Js.fulfilled ()
      /\ exists s0, open s0 /\ r.2 = State (trace s0 ++ [Close true]) true).

Definition stalled_world : world :=
  sample_world (Some gapped_hits) (fun _ => Js.fulfilled (streaming stalled_body)).

Definition failing_world : world :=
  sample_world None (fun _ => Js.fulfilled (plain 500 (Js.lit "internal error"))).

Definition shoes : option Js.str := Some (Js.lit "best running shoes").

Definition post (keyword : option Js.str) : Request :=
  {| method := Js.lit "POST";
     parsed := Js.fulfilled (Some {| keyword := keyword |}) |}.

(** ** Notions used by the further properties *)

(** The total time spent in [sleep], in milliseconds. *)
Definition slept (tr : list event) : nat :=
  sum_list_with (fun e => match e with Slept ms => ms | _ => 0 end) tr.

(** Three transient failures and then a page. *)
Definition flaky (i : nat) : Js.settled Response :=
  match i with
  | 0 => Js.fulfilled (plain 500 [])
  | 1 => Js.rejected (TypeError "fetch failed")
  | 2 => Js.fulfilled (plain 429 [])
  | _ => Js.fulfilled (plain 200 (Js.lit "page"))
  end.

(** The request the search stage sends for a query. *)
Definition searchRequest (query apiKey : option Js.str) : request :=
  SearchRequest (default [] apiKey) (default [] query) 10
    (Js.lit "us") (Js.lit "en").

(** The extraction requests that go out for a list of hits: one for every
    hit that is present and has a link, in the order of the list. *)
Definition extractRequests (jinaKey : option Js.str)
    (hits : list (option SearchResult)) : list request :=
  omap (fun hit =>
          match hit with
          | Some r =>
              match link r with
              | Some (c :: url) =>
                  Some (ExtractRequest (c :: url)
                          (if Js.truthy jinaKey then jinaKey else None))
              | _ => None
              end
          | None => None
          end) hits.

Definition with_content (res : Enriched.t) (content : option Js.str) : Enriched.t :=
  {| Enriched.title := Enriched.title res; Enriched.link := Enriched.link res;
     Enriched.snippet := Enriched.snippet res; Enriched.content := content |}.

(** A page that answers in time with an empty text. *)
Definition blank_page : exchange := Exchange 300 (Js.fulfilled (plain 200 [])).

Definition slow_search : exchange :=
  Exchange 8001 (Js.fulfilled (found (Some [Some (hit "a")]))).

(** The hits that are present. *)
Definition present (hits : list (option SearchResult)) : list SearchResult :=
  omap id hits.

Definition failed_page : exchange := Exchange 300 (Js.fulfilled (plain 503 [])).

(** A hit for which the provider sent no snippet, in a world whose pages
    cannot be extracted, and what its task settles to. *)
Definition bare_hit : SearchResult :=
  {| title := Some (Js.lit "a");
     link := Some (Js.lit "https://example.com/a");
     snippet := None |}.

Definition bare_world : world :=
  {| search := Exchange 120 (Js.fulfilled (found (Some [Some bare_hit])));
     extract := fun _ => failed_page;
     completion := fun _ => Js.fulfilled (streaming stalled_body) |}.

Definition bare_settled : list (Js.settled Enriched.t) :=
  fst <$> allSettled bare_world None [Some bare_hit].

(** The state a turn of the relay loop leaves behind. *)
Definition flow_state (f : flow) : state :=
  match f with
  | Continue _ s => s
  | Break s => s
  | Throw _ s => s
  end.

(** The hits the search stage hands to the fan-out: none without a search
    key or when the search answered [null]. *)
Definition searchHits (w : world) (e : env) (keyword : option Js.str)
  : list (option SearchResult) :=
  if Js.truthy (SERPER_API_KEY e) then
    default [] (fst (fetchSerperSearch (search w) keyword (SERPER_API_KEY e)))
  else [].

(** Context, or the error of the assembly, and stream state when the
    gathering stage is over. *)
Definition gathered (w : world) (e : env) (keyword : option Js.str)
  : Js.settled Js.str * state :=
  collect w e keyword (sendStatus (msg_searching (default [] keyword)) initial).

(** The frames and the last events of a run that ends in the [catch]
    clause. *)
Definition failure_tail (error : Js.error) : list event :=
  [ConsoleError; Enqueue (Status (msg_system_error (Js.message error))) true;
   Close true].

Definition closed_stream : state := State [Close true] true.

(** A POST whose body is the JSON value [null]. *)
Definition null_post : Request :=
  {| method := Js.lit "POST"; parsed := Js.fulfilled None |}.

Definition put : Request :=
  {| method := Js.lit "PUT"; parsed := Js.rejected (TypeError "no body") |}.

Definition is_keep_alive (f : frame) : bool :=
  match f with KeepAlive => true | _ => false end.

(** The number of keep-alive frames the client received. *)
Definition keep_alives (tr : list event) : nat :=
  length (filter is_keep_alive (delivered tr)).

(** The timer expiries over the reads of a body, up to and including the
    read that ends it. *)
Fixpoint stalls (reads : list read) : nat :=
  match reads with
  | [] => 0
  | Read d r :: rest =>
      ticks d + match r with Js.fulfilled (Value _) => stalls rest | _ => 0 end
  end.

(** A body that only ever yields chunks: after the last one listed, the
    next read never settles. *)
Definition is_value (r : read) : bool :=
  match result r with Js.fulfilled (Value _) => true | _ => false end.

(** The read in flight is a chunk or will never settle, and so is every
    read after it. *)
Definition chunks_only (r : relay_state) : Prop :=
  from_option (fun p => is_value p = true) True (readPromise r)
  /\ Forall (fun p => is_value p = true) (reader r).

Definition silent_body : list read :=
  [Read 20 (Js.fulfilled (Value [100]%N))].

Definition silent_world : world :=
  sample_world None (fun _ => Js.fulfilled (streaming silent_body)).

Definition broken_body : list read :=
  [Read 20 (Js.fulfilled (Value [100]%N));
   Read 31000 (Js.rejected (TypeError "terminated"))].

Definition broken_world : world :=
  sample_world None (fun _ => Js.fulfilled (streaming broken_body)).

Definition unreachable_world : world :=
  sample_world None (fun _ => Js.rejected AbortError).

(** The parts of the user message around the keyword and the context. *)
Definition prompt_head : Js.str :=
  Js.lit "作为搜索意图分析专家，请根据以下数据分析关键词 " ++ Js.dq.

Definition prompt_middle : Js.str :=
  Js.dq ++ Js.lit " 的用户意图。" ++ Js.nl ++ Js.nl
  ++ Js.lit "【实时 SERP 数据】:" ++ Js.nl.

Definition prompt_tail : Js.str :=
  Js.nl ++ Js.nl
  ++ Js.lit "请输出一份详细的意图分析报告，包含以下部分（请使用 Markdown 格式）：" ++ Js.nl
  ++ Js.nl
  ++ Js.lit "1.  **意图核心 (The " ++ Js.dq ++ Js.lit "Why" ++ Js.dq ++ Js.lit ")**: " ++ Js.nl
  ++ Js.lit "    - 用户搜索这个词的根本目的是什么？(Do, Know, Go, Buy)" ++ Js.nl
  ++ Js.lit "    - 显性需求 vs 隐性需求。" ++ Js.nl
  ++ Js.lit "2.  **SERP 特征分析**: " ++ Js.nl
  ++ Js.lit "    - Google 在首页展示了什么类型的内容（视频、列表、指南、工具、产品页）？这意味着 Google 认为用户想要什么形式的答案？" ++ Js.nl
  ++ Js.lit "3.  **受众画像**:" ++ Js.nl
  ++ Js.lit "    - 搜索者的专业程度（小白 vs 专家）。" ++ Js.nl
  ++ Js.lit "    - 处于购买漏斗的哪个阶段？" ++ Js.nl
  ++ Js.lit "4.  **内容竞争格局**:" ++ Js.nl
  ++ Js.lit "    - 当前排名靠前的页面有哪些共同点？" ++ Js.nl
  ++ Js.lit "    - 它们的优点和缺点是什么？" ++ Js.nl
  ++ Js.lit "5.  **差异化机会 (The " ++ Js.dq ++ Js.lit "Gap" ++ Js.dq ++ Js.lit ")**:" ++ Js.nl
  ++ Js.lit "    - 如果要在这个词上获得排名，我们需要提供什么独特的价值或内容角度，是当前 Top 10 结果没有覆盖到的？".
(** * Properties *)

(** ** Resilient fetch *)

Lemma acceptable_status res :
  acceptable res = true <->
  (200 <= status res <= 299) \/ (400 <= status res < 500 /\ status res <> 429).
Proof.
  unfold acceptable, ok.
  rewrite orb_true_iff, !andb_true_iff, negb_true_iff.
  rewrite !Nat.leb_le, Nat.ltb_lt, Nat.eqb_neq. tauto.
Qed.

Section Attempts.
Variables (req : request) (fetch : nat -> Js.settled Response).
Variable maxRetries : nat.

Local Abbreviation loop := (attempts req fetch maxRetries).

Lemma attempts_retry k i :
  retryable (fetch i) = true -> i <> maxRetries ->
  loop (S k) i =
    (fst (loop k (S i)), Fetched req :: Slept (backoff i) :: snd (loop k (S i))).
Proof.
  intros Hr Hi. cbn [attempts].
  apply Nat.eqb_neq in Hi. rewrite Hi.
  destruct (fetch i) as [res|e]; cbn in Hr;
    apply negb_true_iff in Hr; rewrite Hr;
    by destruct (loop k (S i)).
Qed.

Lemma attempts_lead j : forall k i,
  (forall t, i <= t < i + j -> retryable (fetch t) = true) ->
  i + j <= maxRetries ->
  loop (j + S k) i =
    (fst (loop (S k) (i + j)), lead req i j ++ snd (loop (S k) (i + j))).
Proof.
  induction j as [|j IH]; intros k i Hr Hle.
  - rewrite Nat.add_0_r. cbn [Nat.add lead seq flat_map app].
    by destruct (loop (S k) i).
  - change (S j + S k) with (S (j + S k)).
    rewrite attempts_retry by (try apply Hr; lia).
    rewrite IH by (try (intros t Ht; apply Hr); lia).
    by replace (S i + j) with (i + S j) by lia.
Qed.

Lemma attempts_accept k i res :
  fetch i = Js.fulfilled res -> acceptable res = true ->
  loop (S k) i = (Some (Js.fulfilled res), [Fetched req]).
Proof. intros Hf Ha. cbn [attempts]. by rewrite Hf, Ha. Qed.

Lemma attempts_last k res :
  fetch maxRetries = Js.fulfilled res ->
  loop (S k) maxRetries = (Some (Js.fulfilled res), [Fetched req]).
Proof.
  intros Hf. cbn [attempts]. rewrite Hf, Nat.eqb_refl.
  by destruct (acceptable res).
Qed.

Lemma attempts_abort k i e :
  fetch i = Js.rejected e -> is_abort e = true ->
  loop (S k) i = (Some (Js.rejected e), [Fetched req]).
Proof. intros Hf Ha. cbn [attempts]. by rewrite Hf, Ha. Qed.

Lemma attempts_starts k i :
  exists evs, snd (loop (S k) i) = Fetched req :: evs.
Proof.
  cbn [attempts]. destruct (loop k (S i)) as [r evs].
  destruct (fetch i) as [res|e]; repeat case_match; simplify_eq/=; eauto.
Qed.

(** Every iteration returns or throws: the loop never runs out. *)
Lemma attempts_returns k : forall i,
  i + k = S maxRetries -> k <> 0 -> is_Some (fst (loop k i)).
Proof.
  induction k as [|k IH]; intros i Hik Hk; [done|].
  cbn [attempts].
  destruct (decide (i = maxRetries)) as [->|Hne].
  - rewrite Nat.eqb_refl. destruct (loop k (S maxRetries)).
    destruct (fetch maxRetries); repeat case_match; simplify_eq/=; eauto.
  - apply Nat.eqb_neq in Hne as Hb. rewrite Hb.
    specialize (IH (S i) ltac:(lia) ltac:(lia)).
    destruct (loop k (S i)) as [r evs].
    destruct (fetch i); repeat case_match; simplify_eq/=; eauto.
Qed.
End Attempts.

Lemma fetchWithRetry_skips req fetch maxRetries j :
  j <= maxRetries ->
  (forall t, t < j -> retryable (fetch t) = true) ->
  fetchWithRetry req fetch maxRetries =
    (fst (attempts req fetch maxRetries (S (maxRetries - j)) j),
     lead req 0 j ++ snd (attempts req fetch maxRetries (S (maxRetries - j)) j)).
Proof.
  intros Hj Hr. unfold fetchWithRetry.
  replace (S maxRetries) with (j + S (maxRetries - j)) by lia.
  rewrite attempts_lead by (try (intros t Ht; apply Hr); lia). done.
Qed.

(** C5, as amended: a response with a 2xx status, or with a 4xx status
    other than 429, is returned by the attempt that produced it, and that
    attempt is the last event: no backoff, no further request. Any other
    status (3xx, 429, 5xx) is followed by the backoff and a new request
    while the budget lasts, and is returned as it is on the last attempt. *)
Theorem fetchWithRetry_accepts_or_retries req fetch maxRetries j res :
  j <= maxRetries ->
  (forall t, t < j -> retryable (fetch t) = true) ->
  fetch j = Js.fulfilled res ->
  let immediate :=
    (200 <= status res <= 299) \/ (400 <= status res < 500 /\ status res <> 429) in
  (immediate ->
     fetchWithRetry req fetch maxRetries
     = (Some (Js.fulfilled res), lead req 0 j ++ [Fetched req]))
  /\ (~ immediate -> j < maxRetries ->
      exists evs,
        snd (fetchWithRetry req fetch maxRetries)
        = lead req 0 j ++ Fetched req :: Slept (1000 * (j + 1)) :: Fetched req :: evs)
  /\ (~ immediate -> j = maxRetries ->
      fetchWithRetry req fetch maxRetries
      = (Some (Js.fulfilled res), lead req 0 j ++ [Fetched req])).
Proof.
  intros Hj Hr Hf immediate.
  rewrite (fetchWithRetry_skips _ _ _ j) by done.
  split; [|split].
  - intros Hi. apply acceptable_status in Hi.
    by rewrite (attempts_accept _ _ _ _ _ res).
  - intros Hi Hlt.
    assert (retryable (fetch j) = true) as Hrj.
    { rewrite Hf. cbn. apply negb_true_iff, not_true_is_false.
      by rewrite acceptable_status. }
    rewrite attempts_retry by (done || lia). cbn [snd].
    replace (maxRetries - j) with (S (maxRetries - S j)) by lia.
    destruct (attempts_starts req fetch maxRetries (maxRetries - S j) (S j))
      as [evs ->].
    by exists evs.
  - intros _ ->. by rewrite (attempts_last _ _ _ _ res).
Qed.

Lemma fetchWithRetry_accepts_or_retries_witness :
  fetchWithRetry ping busy_then_missing 2
  = (Some (Js.fulfilled (plain 404 [])),
     [Fetched ping; Slept 1000; Fetched ping]).
Proof.
  refine (proj1 (fetchWithRetry_accepts_or_retries ping busy_then_missing 2 1
                   (plain 404 []) _ _ _) _).
  - lia.
  - intros t Ht. replace t with 0 by lia. reflexivity.
  - reflexivity.
  - right. cbn. lia.
Defined.

(** C5 as first stated fails on a 3xx status: the response is not [ok], so
    the loop backs off and asks again until the budget is spent. *)
Lemma fetchWithRetry_3xx_is_retried :
  spec_accepted (status (plain 300 [])) = true
  /\ fetchWithRetry ping (fun _ => Js.fulfilled (plain 300 [])) 2
     = (Some (Js.fulfilled (plain 300 [])),
        [Fetched ping; Slept 1000; Fetched ping; Slept 2000; Fetched ping])
  /\ fetchWithRetry ping (fun _ => Js.fulfilled (plain 300 [])) 2
     <> (Some (Js.fulfilled (plain 300 [])), [Fetched ping]).
Proof. repeat split. discriminate. Qed.

(** C8: when an attempt ends in an abort error, that error is what
    [fetchWithRetry] throws, and the aborted request is the last event: no
    backoff and no further attempt, whatever budget is left. *)
Theorem fetchWithRetry_abort_propagates req fetch maxRetries j e :
  j <= maxRetries ->
  (forall t, t < j -> retryable (fetch t) = true) ->
  fetch j = Js.rejected e ->
  Js.name e = Js.lit "AbortError" ->
  fetchWithRetry req fetch maxRetries
  = (Some (Js.rejected e), lead req 0 j ++ [Fetched req]).
Proof.
  intros Hj Hr Hf Hn.
  rewrite (fetchWithRetry_skips _ _ _ j) by done.
  rewrite (attempts_abort _ _ _ _ _ e); [done..|].
  unfold is_abort. by apply bool_decide_eq_true.
Qed.

Lemma fetchWithRetry_abort_propagates_witness :
  fetchWithRetry ping failing_then_aborted 5
  = (Some (Js.rejected AbortError), [Fetched ping; Slept 1000; Fetched ping]).
Proof.
  apply (fetchWithRetry_abort_propagates ping failing_then_aborted 5 1 AbortError).
  - lia.
  - intros t Ht. replace t with 0 by lia. reflexivity.
  - reflexivity.
  - reflexivity.
Defined.

(** ** Content extraction *)

Lemma fetch_within_in_time timeout x :
  (elapsed x < timeout)%N -> fetch_within timeout x = outcome x.
Proof. intros H. unfold fetch_within. by rewrite (proj2 (N.leb_gt _ _) H). Qed.

Lemma fetch_within_late timeout x :
  (timeout <= elapsed x)%N -> fetch_within timeout x = Js.rejected AbortError.
Proof. intros H. unfold fetch_within. by rewrite (proj2 (N.leb_le _ _) H). Qed.

(** C7: a page text of more than 35,000 code units, received before the
    12-second timer fires, comes back as its first 35,000 code units followed
    by the truncation marker, a shorter one unchanged; a timeout (no answer
    before the timer fires), a network error, a status outside 2xx or an
    unreadable body all make the function return [null]. The function has
    no throwing outcome: every failure is a returned [null]. *)
Theorem fetchJinaContent_truncates_or_null x url apiKey :
  url <> [] ->
  (forall response page,
     (elapsed x < 12000)%N ->
     outcome x = Js.fulfilled response ->
     200 <= status response <= 299 ->
     text response = Js.fulfilled page ->
     (MAX_CHARS < length page ->
        fst (fetchJinaContent x url apiKey)
        = Some (take MAX_CHARS page ++ Js.nl ++ Js.nl ++ Js.lit "...(truncated)")
        /\ length (take MAX_CHARS page) = MAX_CHARS)
     /\ (length page <= MAX_CHARS ->
         fst (fetchJinaContent x url apiKey) = Some page))
  /\ ((12000 <= elapsed x)%N
      \/ (exists e, outcome x = Js.rejected e)
      \/ (exists response, outcome x = Js.fulfilled response
           /\ (~ 200 <= status response <= 299
               \/ exists e, text response = Js.rejected e)) ->
      fst (fetchJinaContent x url apiKey) = None).
Proof.
  intros Hurl. destruct url as [|c url]; [done|]. cbn [fetchJinaContent].
  split.
  - intros response page Ht Ho [Hlo Hhi] Htx.
    rewrite fetch_within_in_time, Ho by exact Ht.
    unfold ok. rewrite (proj2 (Nat.leb_le _ _) Hlo), (proj2 (Nat.leb_le _ _) Hhi).
    cbn [andb negb]. rewrite Htx. cbn [fst]. split.
    + intros Hlen. rewrite (proj2 (Nat.ltb_lt _ _) Hlen).
      split; [done|]. rewrite length_take. lia.
    + intros Hlen. by rewrite (proj2 (Nat.ltb_ge _ _) Hlen).
  - intros [Hlate|[[e He]|(response & Ho & Hbad)]].
    + by rewrite fetch_within_late by exact Hlate.
    + unfold fetch_within. rewrite He.
      by destruct (EXTRACT_TIMEOUT <=? elapsed x)%N.
    + unfold fetch_within. rewrite Ho.
      destruct (EXTRACT_TIMEOUT <=? elapsed x)%N; [done|].
      destruct (ok response) eqn:Hok; [|done]. cbn [negb].
      destruct Hbad as [Hst|[e He]]; [|by rewrite He].
      exfalso. apply Hst. unfold ok in Hok.
      apply andb_true_iff in Hok as [?%Nat.leb_le ?%Nat.leb_le]. lia.
Qed.

Lemma fetchJinaContent_truncates_or_null_witness :
  fst (fetchJinaContent (Exchange 300 (Js.fulfilled (plain 200 long_page)))
         page_url None)
  = Some (take MAX_CHARS long_page ++ Js.nl ++ Js.nl ++ Js.lit "...(truncated)")
  /\ length (take MAX_CHARS long_page) = MAX_CHARS.
Proof.
  refine (proj1 (proj1 (fetchJinaContent_truncates_or_null
                          (Exchange 300 (Js.fulfilled (plain 200 long_page)))
                          page_url None _)
                   (plain 200 long_page) long_page _ _ _ _) _).
  - discriminate.
  - cbn. lia.
  - reflexivity.
  - cbn. lia.
  - reflexivity.
  - unfold long_page. rewrite length_replicate. lia.
Defined.

(** ** Search stage *)

(** C10, as amended: a 2xx search response, received before the 8-second
    timer fires, whose body parses to a value other than [null] that has no
    [organic] field makes [fetchSerperSearch] return the empty list, not
    [null]; a body that parses to [null] makes it return [null]. Either way
    the handler goes where a [null] result goes: the fallback context and
    the no-real-time-data status. *)
Theorem fetchSerperSearch_missing_organic x query apiKey response :
  Js.truthy query = true ->
  Js.truthy apiKey = true ->
  (elapsed x < 8000)%N ->
  outcome x = Js.fulfilled response ->
  200 <= status response <= 299 ->
  (json response = Js.fulfilled (Some {| organic := None |}) ->
   fst (fetchSerperSearch x query apiKey) = Some [])
  /\ (json response = Js.fulfilled None ->
      fst (fetchSerperSearch x query apiKey) = None)
  /\ forall w e s,
       aggregate w e (Some []) s = aggregate w e None s
       /\ aggregate w e (Some []) s
          = (Js.fulfilled fallback_context, sendStatus msg_no_data s).
Proof.
  intros Hq Hk Ht Ho [Hlo Hhi].
  assert (fst (fetchSerperSearch x query apiKey)
          = fst (match json response with
                 | Js.fulfilled (Some data) =>
                     (Some (default [] (organic data)), @nil event)
                 | _ => (None, [])
                 end)) as ->.
  { unfold fetchSerperSearch. rewrite Hq, Hk. cbn [negb orb].
    rewrite fetch_within_in_time, Ho by exact Ht.
    unfold ok. rewrite (proj2 (Nat.leb_le _ _) Hlo), (proj2 (Nat.leb_le _ _) Hhi).
    cbn [andb negb].
    destruct (json response) as [[data|]|error]; [|done..].
    by destruct (organic data). }
  split; [by intros ->|]. split; [by intros ->|done].
Qed.

Lemma fetchSerperSearch_missing_organic_witness :
  fst (fetchSerperSearch (Exchange 120 (Js.fulfilled (found None)))
         (Some (Js.lit "best running shoes")) (Some (Js.lit "serper")))
  = Some [].
Proof.
  refine (proj1 (fetchSerperSearch_missing_organic
                   (Exchange 120 (Js.fulfilled (found None)))
                   (Some (Js.lit "best running shoes")) (Some (Js.lit "serper"))
                   (found None) _ _ _ _ _) _).
  - reflexivity.
  - reflexivity.
  - cbn. lia.
  - reflexivity.
  - cbn. lia.
  - reflexivity.
Defined.

(** C10 as first stated fails for a 2xx response whose body is the JSON
    value [null]: it has no [organic] field, reading the field throws, and
    the function returns [null], not the empty list. *)
Lemma null_body_gives_null :
  ok null_answer = true
  /\ json null_answer = Js.fulfilled None
  /\ fst (fetchSerperSearch (Exchange 120 (Js.fulfilled null_answer))
            (Some (Js.lit "best running shoes")) (Some (Js.lit "serper")))
     = None
  /\ fst (fetchSerperSearch (Exchange 120 (Js.fulfilled null_answer))
            (Some (Js.lit "best running shoes")) (Some (Js.lit "serper")))
     <> Some [].
Proof. repeat split. discriminate. Qed.

(** ** Fan-out aggregator *)

Lemma blockText_nonempty index res excerpt :
  Js.truthy (Some (blockText index res excerpt)) = true.
Proof.
  unfold blockText. set (h := Js.lit "[Result #").
  vm_compute in h. by subst h.
Qed.

Lemma Boolean_blockText index res excerpt :
  Boolean (Some (blockText index res excerpt))
  = Some (blockText index res excerpt).
Proof. unfold Boolean. by rewrite blockText_nonempty. Qed.

Lemma block_content index res content :
  Enriched.content res = Some content ->
  block index res
  = Js.fulfilled (blockText index res (take EXCERPT_CHARS content)).
Proof. unfold block. by intros ->. Qed.

Lemma omap_cons {A B} (f : A -> option B) a l :
  omap f (a :: l)
  = match f a with Some b => b :: omap f l | None => omap f l end.
Proof. reflexivity. Qed.

Lemma forallb_cons_true {A} (f : A -> bool) a l :
  forallb f (a :: l) = true <-> f a = true /\ forallb f l = true.
Proof. cbn [forallb]. apply andb_true_iff. Qed.

(** When every fulfilled result has content, the callback throws on none
    of them, and what survives the filter is one block per fulfilled
    result, under the position the result has in the input. *)
Lemma mapIndexed_render l : forall k,
  forallb has_content l = true ->
  exists rendered,
    mapIndexed render k l = Js.fulfilled rendered
    /\ omap Boolean rendered
       = (fun ir => blockText ir.1 ir.2 (excerpt ir.2)) <$> ranked k l.
Proof.
  induction l as [|p l IH]; intros k Hall; [by exists []|].
  apply forallb_cons_true in Hall as [Hp Hl].
  destruct (IH (S k) Hl) as (rendered & Hmap & Hkept).
  destruct p as [res|error].
  - cbn [has_content] in Hp.
    destruct (Enriched.content res) as [content|] eqn:Hcontent; [|done].
    exists (Some (blockText k res (take EXCERPT_CHARS content)) :: rendered).
    cbn [mapIndexed render ranked]. rewrite (block_content _ _ _ Hcontent), Hmap.
    split; [done|].
    rewrite omap_cons, Boolean_blockText, Hkept.
    cbn [fmap list_fmap fst snd]. unfold excerpt.
    by rewrite Hcontent.
  - exists (None :: rendered).
    cbn [mapIndexed render ranked]. rewrite Hmap. split; [done|].
    rewrite omap_cons. exact Hkept.
Qed.

(** The first fulfilled result without content makes the callback throw. *)
Lemma mapIndexed_render_throws l : forall k,
  forallb has_content l = false ->
  mapIndexed render k l = Js.rejected no_slice.
Proof.
  induction l as [|p l IH]; intros k Hall; [done|].
  cbn [forallb] in Hall. cbn [mapIndexed].
  destruct p as [res|error]; cbn [has_content render] in *.
  - unfold block.
    destruct (Enriched.content res) as [content|]; [|done].
    cbn [andb] in Hall. by rewrite (IH _ Hall).
  - cbn [andb] in Hall. by rewrite (IH _ Hall).
Qed.

Lemma blocks_listed l :
  forallb has_content l = true -> blocks l = Js.fulfilled (listed l).
Proof.
  intros Hall. unfold blocks, listed.
  destruct (mapIndexed_render l 0 Hall) as (rendered & -> & ->). done.
Qed.

Lemma blocks_throw l :
  forallb has_content l = false -> blocks l = Js.rejected no_slice.
Proof. intros Hall. unfold blocks. by rewrite mapIndexed_render_throws. Qed.

Lemma references_listed l :
  forallb has_content l = true ->
  references l = Js.fulfilled (Js.join separator (listed l)).
Proof. intros Hall. unfold references. by rewrite blocks_listed. Qed.

Lemma references_throw l :
  forallb has_content l = false -> references l = Js.rejected no_slice.
Proof. intros Hall. unfold references. by rewrite blocks_throw. Qed.

Lemma rejections_le {A} (l : list (Js.settled A)) : rejections l <= length l.
Proof. apply length_filter. Qed.

Lemma rejections_cons {A} (p : Js.settled A) l :
  rejections (p :: l) = (if is_rejected p then 1 else 0) + rejections l.
Proof.
  unfold rejections. rewrite filter_cons.
  destruct p; cbn; by case_decide.
Qed.

Lemma rejections_app {A} (l1 l2 : list (Js.settled A)) :
  rejections (l1 ++ l2) = rejections l1 + rejections l2.
Proof.
  induction l1 as [|p l1 IH]; [done|].
  cbn [app]. rewrite !rejections_cons, IH. lia.
Qed.

Lemma ranked_length l : forall k,
  length (ranked k l) = length l - rejections l.
Proof.
  induction l as [|p l IH]; intros k; [done|].
  rewrite rejections_cons. pose proof (rejections_le l).
  destruct p; cbn [ranked length is_rejected]; rewrite IH; lia.
Qed.

(** The [j]-th surviving result sits at an input position [i] with exactly
    [i - j] failures before it. *)
Lemma ranked_lookup l : forall k j i res,
  ranked k l !! j = Some (i, res) ->
  k <= i /\ l !! (i - k) = Some (Js.fulfilled res)
  /\ i - k = j + rejections (take (i - k) l).
Proof.
  induction l as [|p l IH]; intros k j i res Hj; [done|].
  destruct p as [r|e]; cbn [ranked] in Hj.
  - destruct j as [|j]; cbn in Hj.
    + simplify_eq. rewrite Nat.sub_diag. done.
    + apply IH in Hj as (Hk & Hl & Hc).
      replace (i - k) with (S (i - S k)) by lia.
      cbn [take]. rewrite rejections_cons. cbn. split; [lia|]. split; [done|lia].
  - apply IH in Hj as (Hk & Hl & Hc).
    replace (i - k) with (S (i - S k)) by lia.
    cbn [take]. rewrite rejections_cons. cbn. split; [lia|]. split; [done|lia].
Qed.

Lemma ranked_all_rejected l : forall k,
  rejections l = length l -> ranked k l = [].
Proof.
  intros k H. apply length_zero_iff_nil. rewrite ranked_length. lia.
Qed.

(** Rejected tasks are never looked into, so a list of rejections alone
    cannot make line 187 throw. *)
Lemma all_rejected_has_content (l : list (Js.settled Enriched.t)) :
  rejections l = length l -> forallb has_content l = true.
Proof.
  induction l as [|p l IH]; [done|].
  rewrite rejections_cons. pose proof (rejections_le l).
  destruct p as [res|error]; cbn [is_rejected length]; intros Hall; [lia|].
  cbn [forallb has_content andb]. apply IH. lia.
Qed.

Lemma has_content_lookup l i res :
  forallb has_content l = true ->
  l !! i = Some (Js.fulfilled res) ->
  exists content, Enriched.content res = Some content.
Proof.
  rewrite forallb_forall. intros Hall Hi.
  apply list_elem_of_lookup_2, list_elem_of_In, Hall in Hi.
  cbn [has_content] in Hi.
  destruct (Enriched.content res) as [content|]; [by exists content|done].
Qed.

(** A task rejects exactly when its search hit is a [null] entry. *)
Lemma allSettled_rejected_iff_null w jinaKey topResults i p :
  (fst <$> allSettled w jinaKey topResults) !! i = Some p ->
  is_rejected p = true <-> topResults !! i = Some None.
Proof.
  unfold allSettled. rewrite list_lookup_fmap, list_lookup_imap.
  destruct (topResults !! i) as [[res|]|]; cbn [fmap option_fmap option_map];
    [|by intros [= <-]|done].
  unfold contentTask. destruct (fetchJinaContent _ _ _) as [markdown evs].
  intros [= <-]. cbn. split; intros; simplify_eq.
Qed.

Lemma allSettled_length w jinaKey topResults :
  length (fst <$> allSettled w jinaKey topResults) = length topResults.
Proof. unfold allSettled. by rewrite length_fmap, length_imap. Qed.

Lemma references_all_rejected l :
  rejections l = length l -> references l = Js.fulfilled [].
Proof.
  intros H. rewrite references_listed by by apply all_rejected_has_content.
  unfold listed. by rewrite ranked_all_rejected.
Qed.

Lemma listed_lookup l j b :
  forallb has_content l = true ->
  listed l !! j = Some b ->
  exists i res content,
    l !! i = Some (Js.fulfilled res)
    /\ Enriched.content res = Some content
    /\ b = blockText i res (take EXCERPT_CHARS content)
    /\ i = j + rejections (take i l).
Proof.
  intros Hall Hb. unfold listed in Hb. rewrite list_lookup_fmap in Hb.
  destruct (ranked 0 l !! j) as [[i res]|] eqn:Hj; [|done].
  apply ranked_lookup in Hj as (_ & Hl & Hc). rewrite Nat.sub_0_r in Hl, Hc.
  destruct (has_content_lookup _ _ _ Hall Hl) as [content Hcontent].
  injection Hb as <-. exists i, res, content.
  cbn [fst snd]. unfold excerpt. rewrite Hcontent. done.
Qed.

(** C1, as amended: of [N] settled tasks with [K] rejections, rejected
    tasks are dropped without an error, and with [K = N] the references
    are the empty string. Whenever every fulfilled result carries a
    content string (the extracted text or, failing that, the snippet) the
    assembly completes: the references are the blocks joined by the
    separator line, exactly [N - K] blocks are produced, in input order;
    the [j]-th block renders the fulfilled result found at an input
    position [i] that has [i - j] rejections before it, with the first
    2,000 code units of its content, and carries the number [i + 1], its
    original rank, so the numbers increase but skip the ranks of dropped
    results. With no rejection the numbers are 1..N. Only a fulfilled
    result without content makes line 187 throw. *)
Theorem references_keep_rank (fetchedResults : list (Js.settled Enriched.t)) :
  let N := length fetchedResults in
  let K := rejections fetchedResults in
  (K = N -> references fetchedResults = Js.fulfilled [])
  /\ (forallb has_content fetchedResults = false ->
      references fetchedResults = Js.rejected no_slice)
  /\ (forallb has_content fetchedResults = true ->
      exists kept,
        blocks fetchedResults = Js.fulfilled kept
        /\ references fetchedResults = Js.fulfilled (Js.join separator kept)
        /\ length kept = N - K
        /\ (forall j b,
              kept !! j = Some b ->
              exists i res content,
                fetchedResults !! i = Some (Js.fulfilled res)
                /\ Enriched.content res = Some content
                /\ b = blockText i res (take 2000 content)
                /\ i = j + rejections (take i fetchedResults))
        /\ (K = 0 ->
            forall j b, kept !! j = Some b ->
              exists res content,
                fetchedResults !! j = Some (Js.fulfilled res)
                /\ Enriched.content res = Some content
                /\ b = blockText j res (take 2000 content))).
Proof.
  intros N K. split; [apply references_all_rejected|].
  split; [apply references_throw|].
  intros Hall. exists (listed fetchedResults).
  split; [by apply blocks_listed|]. split; [by apply references_listed|].
  split; [unfold listed; by rewrite length_fmap, ranked_length|].
  split; [intros j b; by apply listed_lookup|].
  intros HK j b Hb.
  destruct (listed_lookup _ _ _ Hall Hb) as (i & res & content & Hl & Hc & -> & Hi).
  assert (rejections (take i fetchedResults) = 0) as Hz.
  { pose proof (rejections_app (take i fetchedResults) (drop i fetchedResults))
      as Happ.
    rewrite take_drop in Happ. unfold K in HK. lia. }
  rewrite Hz, Nat.add_0_r in Hi. subst i. eauto.
Qed.

Lemma references_keep_rank_witness :
  forallb has_content gapped_settled = true
  /\ exists kept,
       blocks gapped_settled = Js.fulfilled kept
       /\ references gapped_settled = Js.fulfilled (Js.join separator kept)
       /\ length kept = 3 - 1.
Proof.
  split; [vm_compute; reflexivity|].
  destruct (proj2 (proj2 (references_keep_rank gapped_settled)))
    as (kept & Hb & Hr & Hn & _).
  - vm_compute. reflexivity.
  - exists kept. split; [exact Hb|]. split; [exact Hr|exact Hn].
Defined.

(** C1 as first stated fails when a dropped task is followed by a kept
    one: of three tasks with the second rejected, the assembly completes
    and the second block is numbered 3, not 2. It also fails for a hit
    without snippet whose page could not be extracted: its task fulfils
    without content and the assembly throws. *)
Lemma references_numbering_skips :
  (length bare_settled = 1
   /\ rejections bare_settled = 0
   /\ references bare_settled = Js.rejected no_slice)
  /\ length gapped_settled = 3
  /\ rejections gapped_settled = 1
  /\ blocks gapped_settled
     = Js.fulfilled
         [blockText 0 (enrich (hit "a") (Some (Js.lit "page"))) (Js.lit "page");
          blockText 2 (enrich (hit "c") (Some (Js.lit "page"))) (Js.lit "page")]
  /\ spec_blocks gapped_settled
     = [blockText 0 (enrich (hit "a") (Some (Js.lit "page"))) (Js.lit "page");
        blockText 1 (enrich (hit "c") (Some (Js.lit "page"))) (Js.lit "page")]
  /\ blocks gapped_settled <> Js.fulfilled (spec_blocks gapped_settled).
Proof.
  split; [by repeat split|].
  split; [reflexivity|]. split; [reflexivity|].
  split; [vm_compute; reflexivity|]. split; [vm_compute; reflexivity|].
  vm_compute. discriminate.
Qed.

Lemma fulfilled_inj {A} (a b : A) : Js.fulfilled a = Js.fulfilled b -> a = b.
Proof. by intros [=]. Qed.

Lemma context_header_not_fallback rest :
  context_header ++ rest <> fallback_context.
Proof.
  intros H. apply (f_equal head) in H. vm_compute in H. discriminate.
Qed.

Lemma aggregate_hits w e r rs s :
  fst (aggregate w e (Some (r :: rs)) s)
  = match references
            (fst <$> allSettled w (JINA_API_KEY e) (take TOP_RESULTS (r :: rs)))
    with
    | Js.fulfilled references => Js.fulfilled (context_header ++ references)
    | Js.rejected error => Js.rejected error
    end.
Proof. unfold aggregate. by destruct (references _). Qed.

(** C4, as amended: the context is the fallback sentinel exactly when no
    search result was obtained: no search key, a [null] search result, or
    an empty list. With at least one result the stage never yields the
    sentinel: whenever every fulfilled task carries a content string the
    context is the header line followed by the blocks of the fulfilled
    tasks, each under its rank, joined by the separator line; when every
    task is rejected that is the bare header. *)
Theorem searchContext_fallback w e keyword s :
  (Js.truthy (SERPER_API_KEY e) = false ->
   fst (collect w e keyword s) = Js.fulfilled fallback_context)
  /\ (fst (searchStage w e keyword s) = None
      \/ fst (searchStage w e keyword s) = Some [] ->
      fst (collect w e keyword s) = Js.fulfilled fallback_context)
  /\ (forall r rs,
        fst (searchStage w e keyword s) = Some (r :: rs) ->
        let fetchedResults :=
          fst <$> allSettled w (JINA_API_KEY e) (take 8 (r :: rs)) in
        fst (collect w e keyword s) <> Js.fulfilled fallback_context
        /\ (forallb has_content fetchedResults = true ->
            fst (collect w e keyword s)
            = Js.fulfilled
                (context_header ++ Js.join separator (listed fetchedResults)))
        /\ (rejections fetchedResults = length fetchedResults ->
            fst (collect w e keyword s) = Js.fulfilled context_header)).
Proof.
  unfold collect. split; [|split].
  - intros Hk. unfold searchStage. by rewrite Hk.
  - destruct (searchStage w e keyword s) as [results s']. cbn [fst].
    by intros [->| ->].
  - intros r rs. destruct (searchStage w e keyword s) as [results s'].
    intros Hres. cbn [fst] in Hres. subst results.
    rewrite aggregate_hits. change TOP_RESULTS with 8.
    set (l := fst <$> allSettled w (JINA_API_KEY e) (take 8 (r :: rs))).
    cbv zeta. split; [|split].
    + destruct (references l) as [refs|error]; [|done].
      intros H%fulfilled_inj. exact (context_header_not_fallback _ H).
    + intros Hall. by rewrite references_listed.
    + intros Hall. rewrite references_all_rejected by done.
      by rewrite app_nil_r.
Qed.

Lemma searchContext_fallback_witness :
  fst (collect (sample_world None busy_then_missing) no_keys
         (Some (Js.lit "best running shoes")) initial)
  = Js.fulfilled fallback_context.
Proof.
  apply (proj1 (searchContext_fallback (sample_world None busy_then_missing)
                  no_keys (Some (Js.lit "best running shoes")) initial)).
  reflexivity.
Defined.

(** C4 as first stated fails when results were obtained and every task is
    dropped: the context is then the header line alone. *)
Lemma all_dropped_is_not_fallback :
  rejections (fst <$> allSettled (sample_world (Some [None; None]) busy_then_missing)
                        None [None; None]) = 2
  /\ fst (collect (sample_world (Some [None; None]) busy_then_missing) with_search
            (Some (Js.lit "best running shoes")) initial)
     = Js.fulfilled context_header
  /\ fst (collect (sample_world (Some [None; None]) busy_then_missing) with_search
            (Some (Js.lit "best running shoes")) initial)
     <> Js.fulfilled fallback_context.
Proof.
  split; [reflexivity|]. split; [vm_compute; reflexivity|].
  vm_compute. discriminate.
Qed.

(** ** The output stream controller *)

Lemma closings_app tr1 tr2 : closings (tr1 ++ tr2) = closings tr1 + closings tr2.
Proof.
  unfold closings. induction tr1 as [|ev tr1 IH]; [done|].
  cbn [app]. rewrite !filter_cons. case_decide; cbn [length]; by rewrite IH.
Qed.

Lemma emit_emit evs1 evs2 s : emit evs2 (emit evs1 s) = emit (evs1 ++ evs2) s.
Proof. unfold emit. cbn. by rewrite app_assoc. Qed.

Lemma emit_nil s : emit [] s = s.
Proof. destruct s. unfold emit. cbn. by rewrite app_nil_r. Qed.

Lemma emit_open evs s : open s -> closings evs = 0 -> open (emit evs s).
Proof.
  intros [Hc Hn] Hevs. split; [done|].
  cbn [emit trace]. rewrite closings_app. lia.
Qed.

Lemma enqueue_open f s :
  closed s = false -> enqueue f s = (Js.fulfilled (), emit [Enqueue f true] s).
Proof. intros H. unfold enqueue. by rewrite H. Qed.

Lemma sendStatus_open text s :
  closed s = false -> sendStatus text s = emit [Enqueue (Status text) true] s.
Proof. intros H. unfold sendStatus. by rewrite enqueue_open. Qed.

Lemma sendStatus_keeps_open text s : open s -> open (sendStatus text s).
Proof.
  intros Ho. rewrite sendStatus_open by apply Ho. by apply emit_open.
Qed.

Lemma close_open s :
  closed s = false ->
  close s = (Js.fulfilled (), State (trace s ++ [Close true]) true).
Proof. intros H. unfold close. by rewrite H. Qed.

Lemma initial_open : open initial.
Proof. done. Qed.

(** ** The stages up to the handshake leave the stream open *)

Lemma attempts_no_close req fetch maxRetries k : forall i,
  closings (snd (attempts req fetch maxRetries k i)) = 0.
Proof.
  induction k as [|k IH]; intros i; [done|].
  cbn [attempts]. specialize (IH (S i)).
  destruct (attempts req fetch maxRetries k (S i)) as [r evs].
  destruct (fetch i); repeat case_match; simplify_eq/=; done.
Qed.

Lemma fetchSerperSearch_no_close x query apiKey :
  closings (snd (fetchSerperSearch x query apiKey)) = 0.
Proof. unfold fetchSerperSearch. repeat case_match; done. Qed.

Lemma contentTask_no_close x jinaKey res :
  closings (snd (contentTask x jinaKey res)) = 0.
Proof.
  unfold contentTask, fetchJinaContent.
  repeat case_match; simplify_eq/=; done.
Qed.

Lemma tasks_no_close {A B} (f : nat -> A -> B * list event) (l : list A) :
  (forall i a, closings (snd (f i a)) = 0) ->
  closings (concat (snd <$> imap f l)) = 0.
Proof.
  revert f. induction l as [|a l IH]; intros f Hf; [done|].
  cbn [imap fmap list_fmap concat]. rewrite closings_app, Hf.
  apply IH. intros i b. apply Hf.
Qed.

Lemma searchStage_open w e keyword s :
  open s -> open (snd (searchStage w e keyword s)).
Proof.
  intros Ho. unfold searchStage. destruct (Js.truthy (SERPER_API_KEY e)).
  - pose proof (fetchSerperSearch_no_close (search w) keyword (SERPER_API_KEY e)).
    destruct (fetchSerperSearch _ _ _) as [r evs]. by apply emit_open.
  - by apply sendStatus_keeps_open.
Qed.

Lemma aggregate_open w e searchResults s :
  open s -> open (snd (aggregate w e searchResults s)).
Proof.
  intros Ho. unfold aggregate.
  destruct searchResults as [[|r rs]|]; cbn [snd];
    try by apply sendStatus_keeps_open.
  assert (open (emit (concat (snd <$> allSettled w (JINA_API_KEY e)
                                        (take TOP_RESULTS (r :: rs))))
                  (sendStatus (msg_captured (length (r :: rs))) s))) as Hopen.
  { apply emit_open; [by apply sendStatus_keeps_open|].
    apply tasks_no_close. intros i a. apply contentTask_no_close. }
  destruct (references _); cbn [snd]; [by apply sendStatus_keeps_open|done].
Qed.

Lemma collect_open w e keyword s : open s -> open (snd (collect w e keyword s)).
Proof.
  intros Ho. unfold collect.
  pose proof (searchStage_open w e keyword s Ho).
  destruct (searchStage w e keyword s) as [r s']. by apply aggregate_open.
Qed.

Lemma delivered_app tr1 tr2 : delivered (tr1 ++ tr2) = delivered tr1 ++ delivered tr2.
Proof. apply omap_app. Qed.

Lemma requests_app tr1 tr2 : requests (tr1 ++ tr2) = requests tr1 ++ requests tr2.
Proof. apply omap_app. Qed.

Lemma attempts_delivers_nothing req fetch maxRetries k : forall i,
  delivered (snd (attempts req fetch maxRetries k i)) = [].
Proof.
  induction k as [|k IH]; intros i; [done|].
  cbn [attempts]. specialize (IH (S i)).
  destruct (attempts req fetch maxRetries k (S i)) as [r evs].
  destruct (fetch i); repeat case_match; simplify_eq/=; done.
Qed.

(** ** Upstream relay *)

Lemma ticks_bounds d :
  (d <= KEEP_ALIVE_MS * (N.of_nat (ticks d) + 1))%N
  /\ (ticks d = 0 \/ (KEEP_ALIVE_MS * N.of_nat (ticks d) < d)%N).
Proof.
  unfold ticks, KEEP_ALIVE_MS. rewrite N2Nat.id.
  pose proof (N.div_mod' (d - 1) 15000) as Hdm.
  pose proof (N.mod_lt (d - 1) 15000 ltac:(done)) as Hlt.
  generalize dependent ((d - 1) mod 15000)%N. intros m Hdm Hlt.
  generalize dependent ((d - 1) / 15000)%N. intros q Hdm.
  split; [lia|]. destruct (decide (q = 0%N)) as [->|Hq]; [by left|right; lia].
Qed.

Lemma keep_alive_caught r s :
  closed s = false ->
  on_error KEEP_ALIVE r s = Continue r (emit [Enqueue KeepAlive true] s).
Proof.
  intros Hc. unfold on_error.
  rewrite bool_decide_eq_true_2 by reflexivity. by rewrite enqueue_open.
Qed.

(** A turn in which the timer fires first keeps the read in flight and
    asks the reader for nothing. *)
Lemma iteration_timer d res rest s :
  closed s = false -> (KEEP_ALIVE_MS < d)%N ->
  iteration {| readPromise := Some (Read d res); reader := rest |} s
  = Continue {| readPromise := Some (Read (d - KEEP_ALIVE_MS) res);
                reader := rest |}
      (emit [Enqueue KeepAlive true] s).
Proof.
  intros Hc Hd. cbn [iteration readPromise reader].
  rewrite (proj2 (N.leb_gt _ _) Hd). by apply keep_alive_caught.
Qed.

(** A turn in which a chunk arrives in time forwards it and issues the
    next read. *)
Lemma iteration_chunk d value rest s :
  closed s = false -> (d <= KEEP_ALIVE_MS)%N ->
  iteration {| readPromise := Some (Read d (Js.fulfilled (Value value)));
               reader := rest |} s
  = Continue (read_next rest) (emit [Enqueue (Relayed value) true] s).
Proof.
  intros Hc Hd. cbn [iteration readPromise reader].
  rewrite (proj2 (N.leb_le _ _) Hd). by rewrite enqueue_open.
Qed.

Lemma relay_wait n : forall d res rest s fuel,
  closed s = false ->
  (d <= KEEP_ALIVE_MS * (N.of_nat n + 1))%N ->
  (n = 0 \/ (KEEP_ALIVE_MS * N.of_nat n < d)%N) ->
  exists d',
    (d' <= KEEP_ALIVE_MS)%N
    /\ relay (n + fuel) {| readPromise := Some (Read d res); reader := rest |} s
       = relay fuel {| readPromise := Some (Read d' res); reader := rest |}
           (emit (replicate n (Enqueue KeepAlive true)) s).
Proof.
  induction n as [|n IH]; intros d res rest s fuel Hc Hhi Hlo.
  - exists d. split; [lia|]. by rewrite emit_nil.
  - assert (KEEP_ALIVE_MS < d)%N as Hd by (unfold KEEP_ALIVE_MS in *; lia).
    cbn [Nat.add relay]. rewrite iteration_timer by done.
    destruct (IH (d - KEEP_ALIVE_MS)%N res rest
                (emit [Enqueue KeepAlive true] s) fuel) as (d' & Hd' & ->).
    + done.
    + unfold KEEP_ALIVE_MS in *. lia.
    + unfold KEEP_ALIVE_MS in *. lia.
    + exists d'. split; [done|]. by rewrite emit_emit.
Qed.

(** Relaying a body that settles takes [turns] turns and produces
    [relay_events]; more fuel changes nothing. *)
Lemma relay_run reads : forall s fuel,
  settles reads = true -> closed s = false ->
  relay (turns reads + fuel) (read_next reads) s
  = Some (relay_result reads, emit (relay_events reads) s).
Proof.
  induction reads as [|[d r] rest IH]; intros s fuel Hs Hc; [done|].
  cbn [turns relay_events].
  change (read_next (Read d r :: rest))
    with {| readPromise := Some (Read d r); reader := rest |}.
  destruct (ticks_bounds d) as [Hhi Hlo].
  rewrite <- !Nat.add_assoc.
  destruct (relay_wait (ticks d) d r rest s
              (1 + (match r with
                    | Js.fulfilled (Value _) => turns rest
                    | _ => 0
                    end + fuel)) Hc Hhi Hlo) as (d' & Hd' & ->).
  set (s1 := emit (replicate (ticks d) (Enqueue KeepAlive true)) s).
  assert (closed s1 = false) as Hc1 by done.
  destruct r as [[value|]|e]; cbn [Nat.add relay].
  - rewrite iteration_chunk by done. cbn [settles] in Hs.
    rewrite IH by done. cbn [relay_result].
    unfold s1. by rewrite !emit_emit, <- ?app_assoc.
  - cbn [iteration readPromise]. rewrite (proj2 (N.leb_le _ _) Hd').
    cbn [relay_result]. unfold s1. by rewrite app_nil_r.
  - cbn [iteration readPromise]. rewrite (proj2 (N.leb_le _ _) Hd').
    cbn [settles] in Hs. apply negb_true_iff in Hs.
    unfold on_error. rewrite Hs. cbn [relay_result].
    unfold s1. by rewrite app_nil_r.
Qed.

Lemma relayed_app tr1 tr2 : relayed (tr1 ++ tr2) = relayed tr1 ++ relayed tr2.
Proof. unfold relayed. by rewrite delivered_app, omap_app. Qed.

Lemma relayed_keep_alives n : relayed (replicate n (Enqueue KeepAlive true)) = [].
Proof. induction n as [|n IH]; [done|]. exact IH. Qed.

Lemma closings_keep_alives n : closings (replicate n (Enqueue KeepAlive true)) = 0.
Proof. induction n as [|n IH]; [done|]. exact IH. Qed.

Lemma relayed_relay_events reads : relayed (relay_events reads) = produced reads.
Proof.
  induction reads as [|[d r] rest IH]; [done|].
  cbn [relay_events produced]. rewrite relayed_app, relayed_keep_alives.
  destruct r as [[value|]|e]; [|done..].
  cbn [app]. change (relayed (?e :: ?l)) with (relayed ([e] ++ l)).
  rewrite relayed_app, IH. done.
Qed.

Lemma closings_relay_events reads : closings (relay_events reads) = 0.
Proof.
  induction reads as [|[d r] rest IH]; [done|].
  cbn [relay_events]. rewrite closings_app, closings_keep_alives.
  destruct r as [[value|]|e]; [|done..]. exact IH.
Qed.



(** ** The stream is closed exactly once *)

Lemma attempts_fulfilled_from_fetch req fetch maxRetries k : forall i res,
  fst (attempts req fetch maxRetries k i) = Some (Js.fulfilled res) ->
  exists t, fetch t = Js.fulfilled res.
Proof.
  induction k as [|k IH]; intros i res; [done|].
  cbn [attempts]. specialize (IH (S i) res).
  destruct (attempts req fetch maxRetries k (S i)) as [r evs].
  cbn [fst] in IH.
  destruct (fetch i) as [res'|e] eqn:Hf; repeat case_match; cbn [fst];
    intros Hres; simplify_eq; eauto.
Qed.

Lemma close_ended s : open s -> ended (close s).
Proof.
  intros Ho. rewrite close_open by apply Ho. right. split; [done|]. by exists s.
Qed.

Lemma attempt_ends w e keyword :
  (forall i res reads,
     completion w i = Js.fulfilled res -> ok res = true ->
     body res = Some reads -> settles reads = true) ->
  exists n, forall fuel, n <= fuel ->
    exists r, attempt fuel w e keyword initial = Some r /\ ended r.
Proof.
  intros Hbody. unfold attempt.
  destruct (Js.truthy keyword); cbn [negb].
  2: { exists 0. intros fuel _. eexists. split; [done|].
       apply close_ended, sendStatus_keeps_open, initial_open. }
  pose proof (collect_open w e keyword
                (sendStatus (msg_searching (default [] keyword)) initial)
                (sendStatus_keeps_open _ _ initial_open)) as Ho1.
  destruct (collect w e keyword _) as [[searchContext|error] s1];
    cbn [snd] in Ho1;
    [|exists 0; intros fuel _; eexists; split; [done|]; by left].
  unfold fetchWithRetry.
  pose proof (attempts_no_close
                (completionRequest e (default [] keyword) searchContext)
                (completion w) 2 3 0) as Hquiet.
  pose proof (attempts_fulfilled_from_fetch
                (completionRequest e (default [] keyword) searchContext)
                (completion w) 2 3 0) as Hfrom.
  destruct (attempts _ (completion w) 2 3 0) as [upstreamResponse evs].
  cbn [fst snd] in Hquiet, Hfrom.
  pose proof (emit_open evs s1 Ho1 Hquiet) as Ho2.
  destruct upstreamResponse as [[res|error]|].
  - destruct (ok res) eqn:Hok; cbn [negb].
    + destruct (Hfrom res eq_refl) as [t Ht].
      destruct (body res) as [reads|] eqn:Hreads;
        [|exists 0; intros fuel _; eexists; split; [done|]; by left].
      exists (turns reads). intros fuel Hfuel.
      replace fuel with (turns reads + (fuel - turns reads)) by lia.
      rewrite relay_run by (eauto || apply Ho2).
      eexists. split; [done|]. left. cbn [snd].
      rewrite emit_emit. apply emit_open; [done|].
      rewrite closings_app, Hquiet. apply closings_relay_events.
    + exists 0. intros fuel _. destruct (text res) as [errText|error].
      * eexists. split; [done|].
        by apply close_ended, sendStatus_keeps_open.
      * eexists. split; [done|]. by left.
  - exists 0. intros fuel _. eexists. split; [done|]. by left.
  - exists 0. intros fuel _. eexists. split; [done|]. by left.
Qed.

(** C3: on every path on which the upstream body settles (it reaches its
    end or fails), and so in particular on the paths through a missing
    keyword, a failed handshake, a graceful end and a mid-relay error,
    [start] finishes with the stream closed, its trace holds exactly one
    accepted close, nothing was closed before it, and after it comes at
    most the [finally] clause's second close, which the stream refuses and
    the clause swallows. *)
Theorem stream_closed_exactly_once w e keyword :
  (forall i res reads,
     completion w i = Js.fulfilled res -> ok res = true ->
     body res = Some reads -> settles reads = true) ->
  exists n, forall fuel, n <= fuel ->
    exists final pre post,
      start fuel w e keyword = Some final
      /\ closed final = true
      /\ trace final = pre ++ Close true :: post
      /\ closings pre = 0
      /\ (post = [] \/ post = [Close false])
      /\ closings (trace final) = 1.
Proof.
  intros Hbody. destruct (attempt_ends w e keyword Hbody) as [n Hn].
  exists n. intros fuel Hfuel.
  destruct (Hn fuel Hfuel) as ([r s'] & Hr & Hend).
  unfold start. rewrite Hr.
  assert (forall s, open s ->
    exists pre, snd (close s) = State (pre ++ [Close true]) true
                /\ pre = trace s /\ closings pre = 0) as Hclose.
  { intros s Ho. rewrite close_open by apply Ho. exists (trace s).
    split; [done|]. split; [done|apply Ho]. }
  unfold ended in Hend. cbn [fst snd] in Hend.
  destruct Hend as [Ho|[-> (s0 & Ho & Hs')]].
  - assert (exists s1, open s1 /\
        match r with
        | Js.fulfilled _ => Some (close s').2
        | Js.rejected error =>
            Some (close (sendStatus (msg_system_error (Js.message error))
                           (emit [ConsoleError] s'))).2
        end = Some (close s1).2) as (s1 & Ho1 & ->).
    { destruct r; eexists; (split; [|done]); [done|].
      by apply sendStatus_keeps_open, emit_open. }
    destruct (Hclose s1 Ho1) as (pre & -> & _ & Hpre).
    exists (State (pre ++ [Close true]) true), pre, [].
    repeat split; try done; [by left|].
    cbn [trace]. rewrite closings_app, Hpre. done.
  - subst s'. exists (State ((trace s0 ++ [Close true]) ++ [Close false]) true),
      (trace s0), [Close false].
    destruct Ho as [_ Hz].
    repeat split; try done.
    + cbn [trace]. by rewrite <- app_assoc.
    + by right.
    + cbn [trace]. rewrite !closings_app, Hz. done.
Qed.

Lemma stream_closed_exactly_once_witness :
  exists n, forall fuel, n <= fuel ->
    exists final pre post,
      start fuel stalled_world with_search shoes = Some final
      /\ closed final = true
      /\ trace final = pre ++ Close true :: post
      /\ closings pre = 0
      /\ (post = [] \/ post = [Close false])
      /\ closings (trace final) = 1.
Proof.
  apply (stream_closed_exactly_once stalled_world with_search shoes).
  intros i res reads Hres _ Hreads. cbn in Hres. injection Hres as <-.
  cbn in Hreads. injection Hreads as <-. reflexivity.
Defined.

(** Why the body has to settle: while the read in flight never settles,
    or fails with the very message of the loop's timer, every turn emits a
    keep-alive frame and goes round again, so [start] does not finish. *)
Lemma relay_unsettled_goes_on fuel : forall d msg s,
  closed s = false ->
  relay fuel {| readPromise := None; reader := [] |} s = None
  /\ relay fuel
       {| readPromise :=
            Some (Read d (Js.rejected (Js.Error msg (Js.lit "KEEP_ALIVE"))));
          reader := [] |} s = None.
Proof.
  induction fuel as [|fuel IH]; intros d msg s Hc; [done|].
  cbn [relay iteration readPromise reader]. split.
  - rewrite keep_alive_caught by done. by apply (IH d msg).
  - destruct (d <=? KEEP_ALIVE_MS)%N.
    + unfold on_error. cbn [Js.message].
      rewrite bool_decide_eq_true_2, enqueue_open by done.
      by apply (IH 0%N msg).
    + rewrite keep_alive_caught by done. by apply IH.
Qed.

(** ** Early exits of the handler *)

(** C9: a request whose body has no keyword (or an empty one) gets exactly
    one frame, the error status, after which the stream is closed; the
    [finally] clause's second close is refused and swallowed, and the trace
    holds no request to the search, extraction or completion provider. *)
Theorem missing_keyword_closes_without_calls fuel w e req body :
  method req = Js.lit "POST" ->
  parsed req = Js.fulfilled (Some body) ->
  Js.truthy (keyword body) = false ->
  Js.truthy (GEMINI_API_KEY e) = true ->
  Js.truthy (GEMINI_BASE_URL e) = true ->
  exists final,
    handler fuel w e req = Some (Streaming final)
    /\ trace final = [Enqueue (Status msg_no_keyword) true; Close true; Close false]
    /\ delivered (trace final) = [Status msg_no_keyword]
    /\ closings (trace final) = 1
    /\ requests (trace final) = []
    /\ closed final = true.
Proof.
  intros Hm Hp Hk Hkey Hurl. unfold handler.
  rewrite bool_decide_eq_false_2 by (by intros []).
  rewrite Hp, Hkey, Hurl. cbn [negb orb].
  unfold start, attempt. rewrite Hk. cbn [negb].
  eexists. split; [reflexivity|]. by repeat split.
Qed.

Lemma missing_keyword_closes_without_calls_witness :
  exists final,
    handler 0 stalled_world with_search (post None) = Some (Streaming final)
    /\ trace final = [Enqueue (Status msg_no_keyword) true; Close true; Close false]
    /\ delivered (trace final) = [Status msg_no_keyword]
    /\ closings (trace final) = 1
    /\ requests (trace final) = []
    /\ closed final = true.
Proof.
  apply (missing_keyword_closes_without_calls 0 stalled_world with_search
           (post None) {| keyword := None |}); reflexivity.
Defined.

(** C6: when the response that [fetchWithRetry] hands back is not [ok], the
    only things that follow the handshake are one status frame, made of the
    status code and the body text, and the close of the stream; the requests
    in the trace end with those [fetchWithRetry] made itself. The handshake
    is the one made with the context the gathering stage yielded. *)
Theorem handshake_failure_emits_one_error
    fuel w e keyword searchContext res evs errText :
  Js.truthy keyword = true ->
  let gathered :=
    collect w e keyword (sendStatus (msg_searching (default [] keyword)) initial) in
  gathered.1 = Js.fulfilled searchContext ->
  fetchWithRetry (completionRequest e (default [] keyword) searchContext)
    (completion w) 2 = (Some (Js.fulfilled res), evs) ->
  ok res = false ->
  text res = Js.fulfilled errText ->
  let frame := Status (msg_ai_error (status res) errText) in
  exists final,
    start fuel w e keyword = Some final
    /\ trace final
       = trace gathered.2 ++ evs ++ [Enqueue frame true; Close true; Close false]
    /\ delivered (trace final) = delivered (trace gathered.2) ++ [frame]
    /\ requests (trace final) = requests (trace gathered.2) ++ requests evs
    /\ closings (trace final) = 1
    /\ (exists lead, msg_ai_error (status res) errText
                     = lead ++ Js.of_nat (status res) ++ Js.nl ++ errText).
Proof.
  intros Hk gathered.
  pose proof (collect_open w e keyword
                (sendStatus (msg_searching (default [] keyword)) initial)
                (sendStatus_keeps_open _ _ initial_open)) as [Hc Hz].
  unfold start, attempt. rewrite Hk. cbn [negb].
  subst gathered. destruct (collect w e keyword _) as [context s1].
  cbn [fst snd] in *. intros -> Hfetch Hok Htext.
  pose proof (attempts_no_close
                (completionRequest e (default [] keyword) searchContext)
                (completion w) 2 3 0) as Hquiet.
  pose proof (attempts_delivers_nothing
                (completionRequest e (default [] keyword) searchContext)
                (completion w) 2 3 0) as Hsilent.
  unfold fetchWithRetry in Hfetch. rewrite Hfetch in Hquiet, Hsilent.
  cbn [snd] in Hquiet, Hsilent.
  unfold fetchWithRetry. rewrite Hfetch, Hok. cbn [negb]. rewrite Htext.
  rewrite sendStatus_open by exact Hc. rewrite close_open by exact Hc.
  eexists. split; [reflexivity|]. cbn [snd close closed emit trace].
  repeat split.
  - by rewrite <- !app_assoc.
  - rewrite !delivered_app, Hsilent.
    change (delivered [Close true]) with (@nil frame).
    change (delivered [Close false]) with (@nil frame).
    by rewrite !app_nil_r.
  - rewrite !requests_app.
    change (requests [Close true]) with (@nil request).
    change (requests [Close false]) with (@nil request).
    change (requests [Enqueue ?f true]) with (@nil request).
    by rewrite !app_nil_r.
  - rewrite !closings_app, Hz, Hquiet. done.
  - unfold msg_ai_error. eexists. by rewrite !app_assoc.
Qed.

Lemma handshake_failure_emits_one_error_witness :
  exists final,
    start 0 failing_world no_keys shoes = Some final
    /\ delivered (trace final)
       = [Status (msg_searching (Js.lit "best running shoes"));
          Status msg_no_search_api; Status msg_no_data;
          Status (msg_ai_error 500 (Js.lit "internal error"))]
    /\ closings (trace final) = 1.
Proof.
  destruct (handshake_failure_emits_one_error 0 failing_world no_keys shoes
              fallback_context
              (plain 500 (Js.lit "internal error"))
              [Fetched (completionRequest no_keys (Js.lit "best running shoes")
                          fallback_context);
               Slept 1000;
               Fetched (completionRequest no_keys (Js.lit "best running shoes")
                          fallback_context);
               Slept 2000;
               Fetched (completionRequest no_keys (Js.lit "best running shoes")
                          fallback_context)]
              (Js.lit "internal error"))
    as (final & Hstart & _ & Hdel & _ & Hone & _).
  - reflexivity.
  - reflexivity.
  - reflexivity.
  - reflexivity.
  - reflexivity.
  - exists final. split; [exact Hstart|]. split; [exact Hdel|exact Hone].
Defined.

(** ** Worked runs *)

(** A sixteen-second stall: the client sees the three progress frames, one
    keep-alive frame, then the chunk, and the stream is closed once. *)
Example stalled_run :
  (fun final => (delivered (trace final), closings (trace final)))
    <$> start 3 stalled_world with_search shoes
  = Some ([Status (msg_searching (Js.lit "best running shoes"));
           Status (msg_captured 3); Status msg_collected;
           KeepAlive; Relayed [104; 105]%N], 1).
Proof. vm_compute. reflexivity. Qed.

(** The extraction requests go out in rank order and skip the [null] hit. *)
Example stalled_run_requests :
  (fun final => length (requests (trace final)))
    <$> start 3 stalled_world with_search shoes
  = Some 4.
Proof. vm_compute. reflexivity. Qed.

(** A hit without snippet whose page cannot be extracted: the assembly of
    the references throws, no completion request is sent, and the client
    gets the two progress frames and one System Error frame. *)
Example bare_run :
  (fun final => (delivered (trace final), length (requests (trace final)),
                 closings (trace final)))
    <$> start 0 bare_world with_search shoes
  = Some ([Status (msg_searching (Js.lit "best running shoes"));
           Status (msg_captured 1);
           Status (msg_system_error
                     (Js.lit "Cannot read properties of undefined (reading 'slice')"))],
          2, 1).
Proof. vm_compute. reflexivity. Qed.

(** With fewer turns than the body needs the loop is still running. *)
Example stalled_run_cut_short : start 2 stalled_world with_search shoes = None.
Proof. vm_compute. reflexivity. Qed.

Example lit_units : Js.lit "a中🔍" = [97; 20013; 55357; 56589]%N.
Proof. reflexivity. Qed.

Example of_nat_decimal : Js.of_nat 120 = Js.lit "120".
Proof. reflexivity. Qed.

Example trim_both_ends :
  Js.trim (Js.nl ++ Js.lit "  a b " ++ Js.nl) = Js.lit "a b".
Proof. reflexivity. Qed.

Example userMessage_opens :
  take 4 (userMessage (Js.lit "k") fallback_context) = Js.lit "作为搜索".
Proof. vm_compute. reflexivity. Qed.

(** * Further properties *)

(** ** Resilient fetch: the shape of every run *)

Lemma lead_snoc req i j :
  lead req i (S j) = lead req i j ++ [Fetched req; Slept (backoff (i + j))].
Proof.
  unfold lead. rewrite seq_S, flat_map_app. cbn [flat_map]. by rewrite app_nil_r.
Qed.

Lemma lead_cons req i j :
  lead req i (S j) = Fetched req :: Slept (backoff i) :: lead req (S i) j.
Proof. reflexivity. Qed.

Lemma slept_app tr1 tr2 : slept (tr1 ++ tr2) = slept tr1 + slept tr2.
Proof. apply sum_list_with_app. Qed.

Lemma slept_lead req j : 2 * slept (lead req 0 j) = 1000 * j * (j + 1).
Proof.
  induction j as [|j IH]; [done|].
  rewrite lead_snoc, slept_app.
  change (slept [Fetched req; Slept (backoff (0 + j))]) with (backoff j + 0).
  unfold backoff. lia.
Qed.

Lemma requests_lead req i j : requests (lead req i j) = replicate j req.
Proof.
  revert i. induction j as [|j IH]; intros i; [done|].
  rewrite lead_cons. cbn [replicate]. rewrite <- (IH (S i)). reflexivity.
Qed.

Lemma attempts_shape req fetch maxRetries k : forall i,
  i + k = S maxRetries -> k <> 0 ->
  exists j,
    i <= j <= maxRetries
    /\ (forall t, i <= t < j -> retryable (fetch t) = true)
    /\ (j < maxRetries -> retryable (fetch j) = false)
    /\ attempts req fetch maxRetries k i
       = (Some (fetch j), lead req i (j - i) ++ [Fetched req]).
Proof.
  induction k as [|k IH]; intros i Hik Hk; [done|].
  destruct (retryable (fetch i)) eqn:Hr.
  - destruct (decide (i = maxRetries)) as [->|Hne].
    + exists maxRetries. split; [lia|]. split; [intros; lia|]. split; [lia|].
      rewrite Nat.sub_diag. cbn [attempts]. rewrite Nat.eqb_refl.
      destruct (attempts req fetch maxRetries k (S maxRetries)).
      destruct (fetch maxRetries); cbn in Hr; apply negb_true_iff in Hr;
        by rewrite Hr.
    + destruct (IH (S i) ltac:(lia) ltac:(lia)) as (j & Hj & Hbefore & Hat & Hrun).
      exists j. split; [lia|]. split.
      { intros t Ht. destruct (decide (t = i)) as [->|]; [done|].
        apply Hbefore. lia. }
      split; [done|].
      rewrite attempts_retry, Hrun by done. cbn [fst snd].
      replace (j - i) with (S (j - S i)) by lia. by rewrite lead_cons.
  - exists i. split; [lia|]. split; [intros; lia|]. split; [done|].
    rewrite Nat.sub_diag. cbn [attempts].
    destruct (attempts req fetch maxRetries k (S i)).
    destruct (fetch i); cbn in Hr; apply negb_false_iff in Hr; by rewrite Hr.
Qed.

Lemma fetchWithRetry_run req fetch maxRetries :
  exists j,
    j <= maxRetries
    /\ (forall t, t < j -> retryable (fetch t) = true)
    /\ (j < maxRetries -> retryable (fetch j) = false)
    /\ fetchWithRetry req fetch maxRetries
       = (Some (fetch j), lead req 0 j ++ [Fetched req]).
Proof.
  destruct (attempts_shape req fetch maxRetries (S maxRetries) 0)
    as (j & Hj & Hbefore & Hat & Hrun); [lia..|].
  exists j. rewrite Nat.sub_0_r in Hrun.
  split; [lia|]. split; [intros t Ht; apply Hbefore; lia|]. done.
Qed.

Lemma fetchWithRetry_requests req fetch maxRetries :
  exists n,
    1 <= n <= maxRetries + 1
    /\ requests (snd (fetchWithRetry req fetch maxRetries)) = replicate n req
    /\ delivered (snd (fetchWithRetry req fetch maxRetries)) = []
    /\ closings (snd (fetchWithRetry req fetch maxRetries)) = 0.
Proof.
  destruct (fetchWithRetry_run req fetch maxRetries) as (j & Hj & _ & _ & Hrun).
  exists (S j). split; [lia|]. split.
  - rewrite Hrun. cbn [snd]. rewrite requests_app, requests_lead.
    by rewrite replicate_S_end.
  - split; [apply attempts_delivers_nothing|apply attempts_no_close].
Qed.

(** X1: every run of [fetchWithRetry] is a number [j <= maxRetries] of
    failed rounds, each a request followed by its backoff, then one last
    request whose outcome is handed back as it is (a response returned, an
    error thrown); the function never falls off its loop. The rounds before
    are exactly the retryable ones, and the run stops early only at an
    outcome that is not retryable. *)
Theorem fetchWithRetry_shape req fetch maxRetries :
  exists j,
    j <= maxRetries
    /\ (forall t, t < j -> retryable (fetch t) = true)
    /\ (j < maxRetries -> retryable (fetch j) = false)
    /\ fetchWithRetry req fetch maxRetries
       = (Some (fetch j), lead req 0 j ++ [Fetched req]).
Proof. apply fetchWithRetry_run. Qed.

(** X2: whatever the network does, [fetchWithRetry] sends between one and
    [maxRetries + 1] requests, all of them the given one, and with [n]
    requests sent it has slept 1000 + 2000 + ... + 1000 (n - 1)
    milliseconds in all, at most 500 maxRetries (maxRetries + 1). *)
Theorem fetchWithRetry_budget req fetch maxRetries :
  let tr := snd (fetchWithRetry req fetch maxRetries) in
  let n := length (requests tr) in
  1 <= n <= maxRetries + 1
  /\ requests tr = replicate n req
  /\ 2 * slept tr = 1000 * (n - 1) * n
  /\ slept tr <= 500 * maxRetries * (maxRetries + 1).
Proof.
  destruct (fetchWithRetry_run req fetch maxRetries) as (j & Hj & _ & _ & ->).
  cbn [snd]. rewrite requests_app, requests_lead.
  change (requests [Fetched req]) with [req].
  rewrite length_app, length_replicate. cbn [length].
  replace (j + 1) with (S j) by lia.
  split; [lia|]. split.
  { by rewrite replicate_S_end. }
  rewrite slept_app. change (slept [Fetched req]) with 0.
  pose proof (slept_lead req j) as Hs.
  split; [rewrite Nat.add_0_r; replace (S j - 1) with j by lia; lia|nia].
Qed.

(** X3: when every attempt before the last was retryable, the outcome of
    the last attempt is the outcome of [fetchWithRetry], whatever it is: a
    5xx or 429 response is returned, a network error is thrown, nothing is
    made up for the spent budget; [maxRetries + 1] requests were sent. *)
Theorem fetchWithRetry_exhausted req fetch maxRetries :
  (forall t, t < maxRetries -> retryable (fetch t) = true) ->
  fetchWithRetry req fetch maxRetries
  = (Some (fetch maxRetries), lead req 0 maxRetries ++ [Fetched req]).
Proof.
  intros Hr. rewrite (fetchWithRetry_skips _ _ _ maxRetries) by done.
  rewrite Nat.sub_diag. cbn [attempts]. rewrite Nat.eqb_refl.
  destruct (attempts req fetch maxRetries 0 (S maxRetries)).
  by destruct (fetch maxRetries); repeat case_match.
Qed.

Lemma fetchWithRetry_exhausted_witness :
  fetchWithRetry ping flaky 2
  = (Some (Js.fulfilled (plain 429 [])),
     [Fetched ping; Slept 1000; Fetched ping; Slept 2000; Fetched ping]).
Proof.
  apply (fetchWithRetry_exhausted ping flaky 2).
  intros t Ht. destruct t as [|[|t]]; [reflexivity..|lia].
Defined.

(** ** Search stage *)

(** X4: the search stage sends one request or none, and never sleeps or
    asks twice. It sends none exactly when the query or the key is missing
    or empty, and then answers [null]; otherwise the one request carries the
    key, the query, a result count of 10 and the locale us/en. *)
Theorem fetchSerperSearch_single_request x query apiKey :
  let run := fetchSerperSearch x query apiKey in
  slept run.2 = 0
  /\ (Js.truthy query && Js.truthy apiKey = false ->
      run = (None, []))
  /\ (Js.truthy query && Js.truthy apiKey = true ->
      requests run.2 = [searchRequest query apiKey]).
Proof.
  unfold fetchSerperSearch, searchRequest.
  destruct (Js.truthy query), (Js.truthy apiKey); cbn [negb orb andb];
    (split; [|split]); try done; repeat case_match; done.
Qed.

Lemma fetchSerperSearch_single_request_witness :
  requests (fetchSerperSearch slow_search shoes (Some (Js.lit "serper"))).2
  = [searchRequest shoes (Some (Js.lit "serper"))].
Proof.
  apply (proj2 (proj2 (fetchSerperSearch_single_request slow_search shoes
                         (Some (Js.lit "serper"))))).
  reflexivity.
Defined.

(** X5: the search stage answers with a list exactly when it had a query
    and a key, the response came before the 8-second timer fired (the timer
    is armed first, so it wins at exactly 8000 ms) with a 2xx status, and
    its body parsed to a value other than [null]; the list is then the body's
    [organic] field, or the empty list when the field is missing. In every
    other case (timeout, network error, other status, unparsable or [null]
    body) the answer is [null]. *)
Theorem fetchSerperSearch_result x query apiKey results :
  fst (fetchSerperSearch x query apiKey) = Some results <->
  Js.truthy query = true /\ Js.truthy apiKey = true
  /\ (elapsed x < 8000)%N
  /\ exists response data,
       outcome x = Js.fulfilled response
       /\ 200 <= status response <= 299
       /\ json response = Js.fulfilled (Some data)
       /\ results = default [] (organic data).
Proof.
  unfold fetchSerperSearch, fetch_within, SEARCH_TIMEOUT, ok. split.
  - destruct (Js.truthy query), (Js.truthy apiKey); cbn [negb orb]; try done.
    destruct (8000 <=? elapsed x)%N eqn:Ht; [done|]. apply N.leb_gt in Ht.
    destruct (outcome x) as [response|e]; [|done].
    destruct (200 <=? status response) eqn:Hlo; [|done].
    destruct (status response <=? 299) eqn:Hhi; [|done]. cbn [andb negb].
    apply Nat.leb_le in Hlo, Hhi.
    destruct (json response) as [[data|]|e] eqn:Hjson; [|done..].
    intros Hres. do 3 (split; [done|]). exists response, data.
    split; [done|]. split; [lia|]. split; [done|].
    by destruct (organic data); cbn in *; simplify_eq.
  - intros (-> & -> & Ht & response & data & -> & [Hlo Hhi] & Hjson & ->).
    cbn [negb orb]. rewrite (proj2 (N.leb_gt _ _) Ht).
    rewrite (proj2 (Nat.leb_le _ _) Hlo), (proj2 (Nat.leb_le _ _) Hhi).
    cbn [andb negb]. rewrite Hjson. by destruct (organic data).
Qed.

Lemma fetchSerperSearch_result_witness :
  fst (fetchSerperSearch (Exchange 120 (Js.fulfilled (found (Some gapped_hits))))
         shoes (Some (Js.lit "serper")))
  = Some gapped_hits.
Proof.
  apply (proj2 (fetchSerperSearch_result
                  (Exchange 120 (Js.fulfilled (found (Some gapped_hits))))
                  shoes (Some (Js.lit "serper")) gapped_hits)).
  split; [reflexivity|]. split; [reflexivity|]. split; [cbn; lia|].
  exists (found (Some gapped_hits)), {| organic := Some gapped_hits |}.
  split; [reflexivity|]. split; [cbn; lia|]. split; reflexivity.
Defined.

(** ** Content extraction stage *)

(** X6: the extraction stage sends one request or none and never sleeps.
    It sends none exactly for an empty URL, answering [null]; otherwise the
    one request is for that URL and carries a bearer key exactly when a
    non-empty key was supplied. *)
Theorem fetchJinaContent_single_request x url apiKey :
  let run := fetchJinaContent x url apiKey in
  slept run.2 = 0
  /\ (url = [] -> run = (None, []))
  /\ (url <> [] ->
      requests run.2
      = [ExtractRequest url (if Js.truthy apiKey then apiKey else None)]).
Proof.
  unfold fetchJinaContent. destruct url as [|c url].
  - by repeat split.
  - repeat split; try done; repeat case_match; done.
Qed.

Lemma fetchJinaContent_single_request_witness :
  requests (fetchJinaContent blank_page page_url (Some [])).2
  = [ExtractRequest page_url None].
Proof.
  apply (proj2 (proj2 (fetchJinaContent_single_request blank_page page_url
                         (Some [])))).
  discriminate.
Defined.

(** X7: whatever the page, a text handed back by the extraction stage has
    at most 35,000 code units plus the 16 of the marker, and it comes from a
    2xx response received before the 12-second timer fired, whose text it
    agrees with on the first 35,000 code units. *)
Theorem fetchJinaContent_bounded x url apiKey content :
  fst (fetchJinaContent x url apiKey) = Some content ->
  length content <= MAX_CHARS + 16
  /\ (elapsed x < 12000)%N
  /\ exists response page,
       outcome x = Js.fulfilled response
       /\ 200 <= status response <= 299
       /\ text response = Js.fulfilled page
       /\ take MAX_CHARS content = take MAX_CHARS page.
Proof.
  unfold fetchJinaContent, fetch_within, EXTRACT_TIMEOUT, ok.
  destruct url as [|c url]; [done|].
  destruct (12000 <=? elapsed x)%N eqn:Ht; [done|]. apply N.leb_gt in Ht.
  destruct (outcome x) as [response|e]; [|done].
  destruct (200 <=? status response) eqn:Hlo; [|done].
  destruct (status response <=? 299) eqn:Hhi; [|done]. cbn [andb negb].
  apply Nat.leb_le in Hlo, Hhi.
  destruct (text response) as [page|e] eqn:Htext; [|done]. cbn [fst].
  assert (length truncation_marker = 16) as Hmark by (vm_compute; reflexivity).
  destruct (MAX_CHARS <? length page) eqn:Hlen; intros [= <-].
  - apply Nat.ltb_lt in Hlen. split.
    { rewrite length_app, length_take, Hmark. lia. }
    split; [lia|]. exists response, page.
    split; [done|]. split; [lia|]. split; [done|].
    rewrite take_app_le by (rewrite length_take; lia).
    by rewrite take_take, Nat.min_id.
  - apply Nat.ltb_ge in Hlen. split; [lia|]. split; [lia|].
    exists response, page. split; [done|]. split; [lia|]. done.
Qed.

Lemma fetchJinaContent_bounded_witness :
  length (Js.lit "page") <= MAX_CHARS + 16.
Proof.
  refine (proj1 (fetchJinaContent_bounded
                   (Exchange 300 (Js.fulfilled (plain 200 (Js.lit "page"))))
                   page_url None (Js.lit "page") _)).
  vm_compute. reflexivity.
Defined.

(** ** Fan-out aggregator *)

(** X8: the task of a hit that is present always fulfils. Its result keeps
    the hit's title, link and snippet, and its content is the extracted
    text when there is one and it is not empty; when extraction answered
    [null] or an empty text, the content is the snippet, [undefined] when
    the hit has none. A hit without link is extracted as the empty URL. *)
Theorem contentTask_substitutes_snippet x jinaKey r :
  exists content,
    fst (contentTask x jinaKey (Some r)) = Js.fulfilled (enrich r content)
    /\ snd (contentTask x jinaKey (Some r))
       = snd (fetchJinaContent x (default [] (link r)) jinaKey)
    /\ (forall page,
          fst (fetchJinaContent x (default [] (link r)) jinaKey) = Some page ->
          page <> [] -> content = Some page)
    /\ (fst (fetchJinaContent x (default [] (link r)) jinaKey) = None
        \/ fst (fetchJinaContent x (default [] (link r)) jinaKey) = Some [] ->
        content = snippet r).
Proof.
  unfold contentTask.
  destruct (fetchJinaContent x (default [] (link r)) jinaKey) as [markdown evs].
  exists (Js.or markdown (snippet r)). cbn [fst snd].
  split; [done|]. split; [done|]. split.
  - intros page -> Hne. by destruct page.
  - by intros [-> | ->].
Qed.

Lemma contentTask_substitutes_snippet_witness :
  fst (contentTask failed_page None (Some (hit "a")))
  = Js.fulfilled (enrich (hit "a") (Some (Js.lit "a snippet"))).
Proof.
  destruct (contentTask_substitutes_snippet failed_page None (hit "a"))
    as (content & -> & _ & _ & Hsnip).
  rewrite Hsnip; [reflexivity|]. left. reflexivity.
Defined.

(** X9: a block holds at most 2,000 code units of content: the block of
    a result that has content is the same block as the one rendered from
    the first 2,000 code units alone, and its length is that of the block
    with empty content plus the smaller of 2,000 and the content's length. *)
Theorem block_excerpt_cap index res content :
  Enriched.content res = Some content ->
  exists text blank,
    block index res = Js.fulfilled text
    /\ block index (with_content res (Some (take 2000 content)))
       = Js.fulfilled text
    /\ block index (with_content res (Some [])) = Js.fulfilled blank
    /\ length text = length blank + (length content `min` 2000).
Proof.
  intros Hcontent. unfold block, with_content, EXCERPT_CHARS. rewrite Hcontent.
  cbn [Enriched.content]. do 2 eexists. split; [reflexivity|].
  split; [|split; [reflexivity|]].
  - rewrite take_take, Nat.min_id. reflexivity.
  - unfold blockText. cbn [Enriched.title Enriched.link Enriched.snippet].
    rewrite take_nil, !length_app, length_take. cbn [length]. lia.
Qed.

Lemma block_excerpt_cap_witness :
  exists text blank,
    block 0 (enrich (hit "a") (Some long_page)) = Js.fulfilled text
    /\ block 0 (enrich (hit "a") (Some (take 2000 long_page)))
       = Js.fulfilled text
    /\ block 0 (enrich (hit "a") (Some [])) = Js.fulfilled blank
    /\ length text = length blank + (length long_page `min` 2000).
Proof.
  apply (block_excerpt_cap 0 (enrich (hit "a") (Some long_page)) long_page).
  reflexivity.
Defined.

Lemma contentTask_events x jinaKey hit :
  snd (contentTask x jinaKey hit) = Fetched <$> extractRequests jinaKey [hit].
Proof.
  unfold contentTask, extractRequests.
  cbn [omap list_omap].
  destruct hit as [r|]; [|reflexivity].
  destruct (link r) as [[|c url]|];
    cbn [from_option id fetchJinaContent]; [reflexivity| |reflexivity].
  cbn [fmap list_fmap].
  repeat case_match; by simplify_eq.
Qed.

Lemma extractRequests_cons jinaKey hit hits :
  extractRequests jinaKey (hit :: hits)
  = extractRequests jinaKey [hit] ++ extractRequests jinaKey hits.
Proof.
  unfold extractRequests. cbn [omap list_omap].
  by repeat case_match.
Qed.

Lemma tasks_events jinaKey hits : forall f : nat -> exchange,
  concat (snd <$> imap (fun i hit => contentTask (f i) jinaKey hit) hits)
  = Fetched <$> extractRequests jinaKey hits.
Proof.
  induction hits as [|hit hits IH]; intros f; [done|].
  cbn [imap fmap list_fmap concat].
  rewrite (extractRequests_cons jinaKey hit hits), contentTask_events, fmap_app.
  f_equal. apply (IH (f ∘ S)).
Qed.

Lemma requests_fetched rs : requests (Fetched <$> rs) = rs.
Proof.
  induction rs as [|r rs IH]; [done|].
  change (requests (Fetched <$> r :: rs)) with (r :: requests (Fetched <$> rs)).
  by rewrite IH.
Qed.

Lemma delivered_fetched rs : delivered (Fetched <$> rs) = [].
Proof. induction rs as [|r rs IH]; [done|]. exact IH. Qed.

Lemma omap_length_le {A B} (f : A -> option B) (l : list A) :
  length (omap f l) <= length l.
Proof.
  induction l as [|a l IH]; [done|].
  csimpl. destruct (f a); cbn [length]; lia.
Qed.

Lemma extractRequests_length jinaKey hits :
  length (extractRequests jinaKey hits) <= length hits.
Proof. apply omap_length_le. Qed.

(** What the stage leaves on the stream, whether or not the assembly of
    the references completes. *)
Lemma aggregate_run w e r rs s :
  closed s = false ->
  let fetchedResults :=
    fst <$> allSettled w (JINA_API_KEY e) (take 8 (r :: rs)) in
  let s1 :=
    emit (Enqueue (Status (msg_captured (length (r :: rs)))) true
          :: (Fetched <$> extractRequests (JINA_API_KEY e) (take 8 (r :: rs))))
      s in
  aggregate w e (Some (r :: rs)) s
  = match references fetchedResults with
    | Js.fulfilled references =>
        (Js.fulfilled (context_header ++ references),
         emit [Enqueue (Status msg_collected) true] s1)
    | Js.rejected error => (Js.rejected error, s1)
    end.
Proof.
  intros Hc. cbv zeta. unfold aggregate, allSettled. rewrite tasks_events.
  rewrite (sendStatus_open _ s) by done. rewrite emit_emit.
  change TOP_RESULTS with 8. cbn [app].
  destruct (references _); [|done].
  by rewrite sendStatus_open by exact Hc.
Qed.

(** X10: with a non-empty result list and the stream open, the aggregator
    announces the full number of results, then sends extraction requests
    for the first eight results only: one per result that is present and
    has a link, in rank order, so at most eight. The stage does not close
    the stream. When every fulfilled task has a content string it then
    announces the end of the collection and yields the header line
    followed by the joined blocks; when one has none, the assembly throws
    after the requests, and no further frame is sent by the stage. *)
Theorem aggregate_top_results w e r rs s :
  closed s = false ->
  let hits := r :: rs in
  let fetchedResults := fst <$> allSettled w (JINA_API_KEY e) (take 8 hits) in
  let out := aggregate w e (Some hits) s in
  requests (trace out.2)
  = requests (trace s) ++ extractRequests (JINA_API_KEY e) (take 8 hits)
  /\ length (extractRequests (JINA_API_KEY e) (take 8 hits)) <= 8
  /\ closed out.2 = false
  /\ (forallb has_content fetchedResults = true ->
      out.1
      = Js.fulfilled (context_header ++ Js.join separator (listed fetchedResults))
      /\ delivered (trace out.2)
         = delivered (trace s)
           ++ [Status (msg_captured (length hits)); Status msg_collected])
  /\ (forallb has_content fetchedResults = false ->
      out.1 = Js.rejected no_slice
      /\ delivered (trace out.2)
         = delivered (trace s) ++ [Status (msg_captured (length hits))]).
Proof.
  intros Hc hits fetchedResults out. subst out hits.
  rewrite aggregate_run by exact Hc. cbv zeta. fold fetchedResults.
  assert (length (extractRequests (JINA_API_KEY e) (take 8 (r :: rs))) <= 8)
    as Hlen.
  { etrans; [apply extractRequests_length|]. rewrite length_take. lia. }
  destruct (forallb has_content fetchedResults) eqn:Hall.
  - rewrite (references_listed _ Hall). cbn [fst snd emit trace closed].
    split; [|split; [done|split; [done|split; [|done]]]].
    + rewrite <- app_assoc, requests_app, (requests_app (_ :: _)).
      change (requests (?ev :: ?l)) with (requests l).
      rewrite requests_fetched. change (requests [_]) with (@nil request).
      by rewrite app_nil_r.
    + intros _. split; [done|].
      rewrite <- app_assoc, delivered_app, (delivered_app (_ :: _)).
      change (delivered (Enqueue ?f true :: ?l)) with (f :: delivered l).
      by rewrite delivered_fetched.
  - rewrite (references_throw _ Hall). cbn [fst snd emit trace closed].
    split; [|split; [done|split; [done|split; [done|]]]].
    + rewrite requests_app.
      change (requests (?ev :: ?l)) with (requests l).
      by rewrite requests_fetched.
    + intros _. split; [done|].
      rewrite delivered_app.
      change (delivered (Enqueue ?f true :: ?l)) with (f :: delivered l).
      by rewrite delivered_fetched.
Qed.

Lemma aggregate_top_results_witness :
  requests (trace (snd (aggregate stalled_world with_search (Some gapped_hits)
                          initial)))
  = requests (trace initial) ++ extractRequests None (take 8 gapped_hits).
Proof.
  apply (proj1 (aggregate_top_results stalled_world with_search
                  (Some (hit "a")) [None; Some (hit "c")] initial eq_refl)).
Defined.

Lemma ranked_weaken p l k ir : ir ∈ ranked (S k) l -> ir ∈ ranked k (p :: l).
Proof. destruct p; cbn [ranked]; [apply list_elem_of_further|done]. Qed.

Lemma tasks_keep_present jinaKey hits : forall (f : nat -> exchange) k j r,
  hits !! j = Some (Some r) ->
  (k + j,
   enrich r (Js.or (fst (fetchJinaContent (f j) (default [] (link r)) jinaKey))
               (snippet r)))
  ∈ ranked k (fst <$> imap (fun i hit => contentTask (f i) jinaKey hit) hits).
Proof.
  induction hits as [|hit hits IH]; intros f k j r Hj; [done|].
  destruct j as [|j]; cbn in Hj.
  - simplify_eq. cbn [imap fmap list_fmap]. unfold contentTask at 1.
    destruct (fetchJinaContent (f 0) (default [] (link r)) jinaKey)
      as [markdown evs].
    cbn [fst ranked]. rewrite Nat.add_0_r. apply list_elem_of_here.
  - pose proof (IH (f ∘ S) (S k) j r Hj) as Hin.
    replace (k + S j) with (S k + j) by lia.
    cbn [imap fmap list_fmap]. by apply ranked_weaken.
Qed.

Lemma tasks_count jinaKey hits : forall (f : nat -> exchange) k,
  length (ranked k (fst <$> imap (fun i hit => contentTask (f i) jinaKey hit) hits))
  = length (present hits).
Proof.
  induction hits as [|hit hits IH]; intros f k; [done|].
  cbn [imap fmap list_fmap]. specialize (IH (f ∘ S) (S k)).
  destruct hit as [r|]; cbn [contentTask].
  - destruct (fetchJinaContent (f 0) (default [] (link r)) jinaKey)
      as [markdown evs].
    cbn [fst ranked length]. unfold present in *.
    cbn [omap list_omap id length]. f_equal. exact IH.
  - cbn [fst ranked]. unfold present in *.
    cbn [omap list_omap id]. exact IH.
Qed.

Lemma or_is_Some a b :
  is_Some (Js.or a b) <-> Js.truthy a = true \/ is_Some b.
Proof.
  unfold Js.or. destruct (Js.truthy a) eqn:Ha.
  - split; [by left|]. intros _. by destruct a.
  - split; [by right|]. by intros [|].
Qed.

(** A task ends up without content exactly when its hit has neither an
    extracted text nor a snippet. *)
Lemma tasks_have_content jinaKey hits : forall f : nat -> exchange,
  forallb has_content
    (fst <$> imap (fun i hit => contentTask (f i) jinaKey hit) hits) = true
  <-> forall j r,
        hits !! j = Some (Some r) ->
        Js.truthy (fst (fetchJinaContent (f j) (default [] (link r)) jinaKey))
        = true
        \/ is_Some (snippet r).
Proof.
  induction hits as [|hit hits IH]; intros f; [done|].
  cbn [imap fmap list_fmap]. rewrite forallb_cons_true, (IH (f ∘ S)).
  assert (has_content (contentTask (f 0) jinaKey hit).1 = true
          <-> forall r, hit = Some r ->
                Js.truthy (fst (fetchJinaContent (f 0) (default [] (link r))
                                  jinaKey)) = true
                \/ is_Some (snippet r)) as ->.
  { destruct hit as [r|]; [|done]. unfold contentTask.
    destruct (fetchJinaContent (f 0) (default [] (link r)) jinaKey)
      as [markdown evs] eqn:Hrun.
    cbn [fst has_content Enriched.content]. split.
    - intros Hc r' [= <-]. rewrite Hrun. cbn [fst]. apply or_is_Some.
      by destruct (Js.or markdown (snippet r)).
    - intros Hc. specialize (Hc r eq_refl). rewrite Hrun in Hc.
      cbn [fst] in Hc. by apply or_is_Some in Hc as [content ->]. }
  split.
  - intros [H0 Hrest] [|j] r Hj; cbn in Hj; [apply H0; congruence|].
    by apply (Hrest j r).
  - intros Hall. split.
    + intros r ->. by apply (Hall 0 r).
    + intros j r Hj. by apply (Hall (S j) r).
Qed.

(** X11: a failed extraction alone never costs a result its block. The
    assembly completes exactly when every hit that is present has an
    extracted text or a snippet. Then every hit present among the hits
    handed to the fan-out gets a block, numbered with its rank and filled
    with the extracted text or, when extraction gave [null] or an empty
    text, with its snippet; there are exactly as many blocks as hits
    present. When some hit present has neither, reading its content throws
    and no block at all is produced. *)
Theorem every_present_hit_has_a_block w jinaKey hits :
  let fetchedResults := fst <$> allSettled w jinaKey hits in
  let markdown j r :=
    fst (fetchJinaContent (extract w j) (default [] (link r)) jinaKey) in
  let complete :=
    forall j r, hits !! j = Some (Some r) ->
      Js.truthy (markdown j r) = true \/ is_Some (snippet r) in
  (complete ->
   exists kept,
     blocks fetchedResults = Js.fulfilled kept
     /\ length kept = length (present hits)
     /\ forall j r,
          hits !! j = Some (Some r) ->
          exists content,
            blockText j (enrich r (Some content)) (take 2000 content) ∈ kept
            /\ (Js.truthy (markdown j r) = true -> markdown j r = Some content)
            /\ (Js.truthy (markdown j r) = false -> snippet r = Some content))
  /\ (~ complete -> blocks fetchedResults = Js.rejected no_slice).
Proof.
  intros fetchedResults markdown complete.
  pose proof (tasks_have_content jinaKey hits (extract w)) as Hiff.
  fold (allSettled w jinaKey hits) in Hiff. fold fetchedResults in Hiff.
  split.
  - intros Hcomplete. apply Hiff in Hcomplete as Hall.
    exists (listed fetchedResults). split; [by apply blocks_listed|].
    split; [unfold listed, fetchedResults, allSettled;
            by rewrite length_fmap, tasks_count|].
    intros j r Hj.
    pose proof (tasks_keep_present jinaKey hits (extract w) 0 j r Hj) as Hin.
    fold (allSettled w jinaKey hits) in Hin. fold fetchedResults in Hin.
    fold (markdown j r) in Hin. cbn [Nat.add] in Hin.
    destruct (proj2 (or_is_Some (markdown j r) (snippet r)) (Hcomplete j r Hj))
      as [content Hcontent].
    rewrite Hcontent in Hin. exists content. split; [|split].
    + unfold listed. apply list_elem_of_fmap.
      exists (j, enrich r (Some content)). split; [|exact Hin]. done.
    + intros Ht. unfold Js.or in Hcontent. by rewrite Ht in Hcontent.
    + intros Ht. unfold Js.or in Hcontent. by rewrite Ht in Hcontent.
  - intros Hnot. apply blocks_throw.
    destruct (forallb has_content fetchedResults) eqn:Hall; [|done].
    exfalso. apply Hnot. exact (proj1 Hiff eq_refl).
Qed.

Lemma every_present_hit_has_a_block_witness :
  exists kept,
    blocks (fst <$> allSettled stalled_world None gapped_hits)
    = Js.fulfilled kept
    /\ length kept = length (present gapped_hits).
Proof.
  destruct (proj1 (every_present_hit_has_a_block stalled_world None gapped_hits))
    as (kept & Hb & Hn & _).
  - intros j r Hj. right.
    destruct j as [|[|[|j]]]; cbn in Hj; by simplify_eq.
  - by exists kept.
Defined.

(** ** Reading traces *)

Lemma delivered_enqueue f : delivered [Enqueue f true] = [f].
Proof. reflexivity. Qed.
Lemma delivered_refused f : delivered [Enqueue f false] = [].
Proof. reflexivity. Qed.
Lemma delivered_close b : delivered [Close b] = [].
Proof. reflexivity. Qed.
Lemma delivered_console : delivered [ConsoleError] = [].
Proof. reflexivity. Qed.
Lemma requests_enqueue f b : requests [Enqueue f b] = [].
Proof. reflexivity. Qed.
Lemma requests_close b : requests [Close b] = [].
Proof. reflexivity. Qed.
Lemma requests_console : requests [ConsoleError] = [].
Proof. reflexivity. Qed.
Lemma closings_enqueue f b : closings [Enqueue f b] = 0.
Proof. reflexivity. Qed.
Lemma closings_console : closings [ConsoleError] = 0.
Proof. reflexivity. Qed.
Lemma extractRequests_nil jinaKey : extractRequests jinaKey (take 8 []) = [].
Proof. reflexivity. Qed.

Create Rewrite HintDb trace.
#[local] Hint Rewrite delivered_app requests_app closings_app
  delivered_enqueue delivered_refused delivered_close delivered_console
  requests_enqueue requests_close requests_console closings_enqueue
  closings_console extractRequests_nil delivered_fetched requests_fetched
  @app_nil_r Nat.add_0_r : trace.

Ltac read_trace :=
  cbn [fst snd emit trace closed]; autorewrite with trace;
  rewrite <- ?app_assoc; try done.

(** ** Status emitter and the handler's gate *)

(** X12: a status frame is best effort. On an open stream it is delivered;
    on a closed one the refused write is logged and swallowed. Either way
    the stream is as open or closed as before, nothing is closed and no
    request is sent. *)
Theorem sendStatus_best_effort text s :
  let s' := sendStatus text s in
  closed s' = closed s
  /\ delivered (trace s')
     = delivered (trace s) ++ (if closed s then [] else [Status text])
  /\ closings (trace s') = closings (trace s)
  /\ requests (trace s') = requests (trace s).
Proof.
  unfold sendStatus, enqueue. destruct (closed s) eqn:Hc;
    cbn [emit trace closed];
    rewrite ?delivered_app, ?closings_app, ?requests_app;
    repeat split; try done; cbn; by rewrite ?app_nil_r, ?Nat.add_0_r.
Qed.

(** X13: the handler opens a stream only for a POST whose body parsed to a
    value other than [null] and with both the AI key and the AI base URL
    configured. Otherwise it answers at once and without a stream: 405 for
    any other method, whatever else is wrong; 400 for a POST whose body
    does not parse; 500 for a POST with such a body when the AI
    configuration is incomplete. A POST whose body is the JSON value
    [null] gets no answer at all: reading [keyword] off it throws before
    the configuration is looked at, whatever the configuration is. *)
Theorem handler_gate fuel w e req :
  (method req <> Js.lit "POST" ->
   handler fuel w e req = Some (Plain 405 (Js.lit "Method Not Allowed")))
  /\ (method req = Js.lit "POST" ->
      (forall error, parsed req = Js.rejected error ->
         handler fuel w e req
         = Some (Plain 400
                   (Js.lit "{" ++ Js.dq ++ Js.lit "error" ++ Js.dq ++ Js.lit ":"
                    ++ Js.dq ++ Js.lit "Invalid JSON" ++ Js.dq ++ Js.lit "}")))
      /\ (parsed req = Js.fulfilled None ->
          handler fuel w e req = Some (Thrown no_destructure))
      /\ (forall body, parsed req = Js.fulfilled (Some body) ->
            Js.truthy (GEMINI_API_KEY e) && Js.truthy (GEMINI_BASE_URL e) = false ->
            handler fuel w e req
            = Some (Plain 500
                      (Js.lit "{" ++ Js.dq ++ Js.lit "error" ++ Js.dq ++ Js.lit ":"
                       ++ Js.dq ++ Js.lit "Missing AI Config" ++ Js.dq
                       ++ Js.lit "}")))
      /\ (forall body, parsed req = Js.fulfilled (Some body) ->
            Js.truthy (GEMINI_API_KEY e) && Js.truthy (GEMINI_BASE_URL e) = true ->
            handler fuel w e req = Streaming <$> start fuel w e (keyword body)))
  /\ (forall final, handler fuel w e req = Some (Streaming final) ->
        method req = Js.lit "POST"
        /\ (exists body, parsed req = Js.fulfilled (Some body))
        /\ Js.truthy (GEMINI_API_KEY e) = true
        /\ Js.truthy (GEMINI_BASE_URL e) = true).
Proof.
  unfold handler. split; [|split].
  - intros Hm. by rewrite bool_decide_eq_true_2.
  - intros Hm. rewrite bool_decide_eq_false_2 by (by intros []).
    split; [|split; [|split]].
    + by intros error ->.
    + by intros ->.
    + intros body ->. by destruct (Js.truthy (GEMINI_API_KEY e)),
        (Js.truthy (GEMINI_BASE_URL e)).
    + intros body ->. by destruct (Js.truthy (GEMINI_API_KEY e)),
        (Js.truthy (GEMINI_BASE_URL e)).
  - intros final. case_bool_decide as Hm; [done|].
    assert (method req = Js.lit "POST") as Hpost
      by (by destruct (decide (method req = Js.lit "POST"))).
    destruct (parsed req) as [[body|]|error]; [|done..].
    destruct (Js.truthy (GEMINI_API_KEY e)), (Js.truthy (GEMINI_BASE_URL e));
      cbn [negb orb]; try done.
    intros _. split; [done|]. split; [by exists body|done].
Qed.

Lemma handler_gate_witness :
  handler 0 stalled_world no_keys null_post = Some (Thrown no_destructure).
Proof.
  refine (proj1 (proj2 (proj1 (proj2 (handler_gate 0 stalled_world no_keys
                                        null_post)) _)) _); reflexivity.
Defined.

(** ** The gathering stage as a whole *)

Lemma fetchSerperSearch_events x query apiKey :
  Js.truthy query = true -> Js.truthy apiKey = true ->
  requests (snd (fetchSerperSearch x query apiKey)) = [searchRequest query apiKey]
  /\ delivered (snd (fetchSerperSearch x query apiKey)) = [].
Proof.
  intros Hq Hk. unfold fetchSerperSearch, searchRequest. rewrite Hq, Hk.
  cbn [negb orb]. repeat case_match; done.
Qed.

(** What the gathering stage adds to an open stream. *)
Lemma collect_run w e keyword s :
  closed s = false -> Js.truthy keyword = true ->
  let hits := searchHits w e keyword in
  let assembly :=
    references (fst <$> allSettled w (JINA_API_KEY e) (take 8 hits)) in
  let out := collect w e keyword s in
  closed out.2 = false
  /\ out.1
     = match hits with
       | [] => Js.fulfilled fallback_context
       | _ :: _ =>
           match assembly with
           | Js.fulfilled references =>
               Js.fulfilled (context_header ++ references)
           | Js.rejected error => Js.rejected error
           end
       end
  /\ delivered (trace out.2)
     = delivered (trace s)
       ++ (if Js.truthy (SERPER_API_KEY e) then [] else [Status msg_no_search_api])
       ++ match hits with
          | [] => [Status msg_no_data]
          | _ :: _ =>
              Status (msg_captured (length hits))
              :: match assembly with
                 | Js.fulfilled _ => [Status msg_collected]
                 | Js.rejected _ => []
                 end
          end
  /\ requests (trace out.2)
     = requests (trace s)
       ++ (if Js.truthy (SERPER_API_KEY e)
           then [searchRequest keyword (SERPER_API_KEY e)] else [])
       ++ extractRequests (JINA_API_KEY e) (take 8 hits).
Proof.
  intros Hc Hk hits assembly out. subst hits assembly out.
  unfold collect, searchStage, searchHits.
  destruct (Js.truthy (SERPER_API_KEY e)) eqn:Hserper.
  - destruct (fetchSerperSearch_events (search w) keyword (SERPER_API_KEY e) Hk
                Hserper) as [Hreq Hdel].
    destruct (fetchSerperSearch (search w) keyword (SERPER_API_KEY e))
      as [found evs].
    cbn [fst snd] in *.
    destruct found as [[|r rs]|]; cbn [default from_option id].
    + unfold aggregate. cbn [fst snd]. rewrite sendStatus_open by exact Hc.
      do 2 (split; [done|]). split; read_trace; by rewrite ?Hreq, ?Hdel.
    + rewrite aggregate_run by exact Hc. cbv zeta.
      destruct (references _) as [refs|error]; rewrite ?emit_emit;
        (do 2 (split; [done|])); split; read_trace;
        change (delivered (Enqueue ?f true :: ?l)) with (f :: delivered l);
        change (requests (Enqueue ?f true :: ?l)) with (requests l);
        read_trace; by rewrite ?Hreq, ?Hdel.
    + unfold aggregate. cbn [fst snd]. rewrite sendStatus_open by exact Hc.
      do 2 (split; [done|]). split; read_trace; by rewrite ?Hreq, ?Hdel.
  - unfold aggregate. cbn [fst snd].
    rewrite (sendStatus_open _ s) by done. rewrite sendStatus_open by exact Hc.
    do 2 (split; [done|]). split; read_trace.
Qed.

(** X14: for a request with a keyword, the gathering stage itself never
    closes the stream, and the frames it leaves are, in this order: the
    search banner; the warning that no search key is configured, when
    there is none; then, with no hits (no key, a failed search, an empty
    list), the no-real-time-data notice, the context being the fallback
    sentinel; with hits, the count of all hits and, when every fulfilled
    task of the first eight has a content string, the end-of-collection
    notice, the context being the header line followed by the blocks of
    the fulfilled tasks joined by the separator line. With hits of which
    one has neither extracted text nor snippet, the assembly throws: the
    stage yields the error instead of a context and the end-of-collection
    notice is not sent. A failed search never ends the run. *)
Theorem gathering_frames w e keyword :
  Js.truthy keyword = true ->
  let hits := searchHits w e keyword in
  let fetchedResults :=
    fst <$> allSettled w (JINA_API_KEY e) (take 8 hits) in
  let banner :=
    Status (msg_searching (default [] keyword))
    :: (if Js.truthy (SERPER_API_KEY e) then [] else [Status msg_no_search_api]) in
  let out := gathered w e keyword in
  closed out.2 = false
  /\ (hits = [] ->
      out.1 = Js.fulfilled fallback_context
      /\ delivered (trace out.2) = banner ++ [Status msg_no_data])
  /\ (hits <> [] -> forallb has_content fetchedResults = true ->
      out.1
      = Js.fulfilled (context_header ++ Js.join separator (listed fetchedResults))
      /\ delivered (trace out.2)
         = banner ++ [Status (msg_captured (length hits)); Status msg_collected])
  /\ (hits <> [] -> forallb has_content fetchedResults = false ->
      out.1 = Js.rejected no_slice
      /\ delivered (trace out.2)
         = banner ++ [Status (msg_captured (length hits))]).
Proof.
  intros Hk hits fetchedResults banner out. subst out banner. unfold gathered.
  destruct (collect_run w e keyword
              (sendStatus (msg_searching (default [] keyword)) initial)
              eq_refl Hk) as (Hc & Hctx & Hdel & _).
  fold hits in Hctx, Hdel. fold fetchedResults in Hctx, Hdel.
  change (delivered (trace (sendStatus ?t initial))) with [Status t] in Hdel.
  split; [exact Hc|]. rewrite Hctx, Hdel. clear Hctx Hdel Hc.
  split; [|split].
  - by intros ->.
  - intros Hne Hall. destruct hits as [|r rs]; [done|].
    by rewrite (references_listed _ Hall).
  - intros Hne Hall. destruct hits as [|r rs]; [done|].
    by rewrite (references_throw _ Hall).
Qed.

Lemma gathering_frames_witness :
  delivered (trace (gathered stalled_world with_search shoes).2)
  = [Status (msg_searching (Js.lit "best running shoes"));
     Status (msg_captured 3); Status msg_collected].
Proof.
  refine (proj2 (proj1 (proj2 (proj2 (gathering_frames stalled_world with_search
                                        shoes eq_refl))) _ _)).
  - vm_compute. discriminate.
  - vm_compute. reflexivity.
Defined.

(** ** Requests of a whole run *)

Lemma iteration_requests r s :
  requests (trace (flow_state (iteration r s))) = requests (trace s)
  /\ closings (trace (flow_state (iteration r s))) = closings (trace s).
Proof.
  unfold iteration, on_error, enqueue.
  repeat case_match; simplify_eq; cbn [flow_state]; split; by read_trace.
Qed.

Lemma relay_requests fuel : forall r s out s',
  relay fuel r s = Some (out, s') ->
  requests (trace s') = requests (trace s)
  /\ closings (trace s') = closings (trace s).
Proof.
  induction fuel as [|fuel IH]; intros r s out s' Hrun; [done|].
  cbn [relay] in Hrun. destruct (iteration_requests r s) as [Hreq Hcl].
  destruct (iteration r s) as [r1 s1|s1|e s1]; cbn [flow_state] in Hreq, Hcl.
  - destruct (IH _ _ _ _ Hrun) as [-> ->]. done.
  - by simplify_eq.
  - by simplify_eq.
Qed.

Lemma close_requests s : requests (trace (close s).2) = requests (trace s).
Proof. unfold close. destruct (closed s); by read_trace. Qed.

Lemma sendStatus_requests text s :
  requests (trace (sendStatus text s)) = requests (trace s).
Proof. unfold sendStatus, enqueue. destruct (closed s); by read_trace. Qed.

Lemma attempt_requests fuel w e keyword out s1 :
  Js.truthy keyword = true ->
  attempt fuel w e keyword initial = Some (out, s1) ->
  match (gathered w e keyword).1 with
  | Js.fulfilled searchContext =>
      exists n,
        1 <= n <= 3
        /\ requests (trace s1)
           = requests (trace (gathered w e keyword).2)
             ++ replicate n (completionRequest e (default [] keyword)
                               searchContext)
  | Js.rejected error =>
      out = Js.rejected error /\ s1 = (gathered w e keyword).2
  end.
Proof.
  intros Hk. unfold attempt, gathered. rewrite Hk. cbn [negb].
  destruct (collect w e keyword _) as [[searchContext|error] s0];
    cbn [fst snd]; [|by intros [= <- <-]].
  destruct (fetchWithRetry_requests
              (completionRequest e (default [] keyword) searchContext)
              (completion w) 2) as (n & Hn & Hreq & _ & _).
  destruct (fetchWithRetry _ (completion w) 2) as [upstream evs].
  cbn [snd] in Hreq. intros Hrun. exists n. split; [lia|].
  assert (requests (trace (emit evs s0))
          = requests (trace s0)
            ++ replicate n (completionRequest e (default [] keyword) searchContext))
    as Hbase by (read_trace; by rewrite Hreq).
  destruct upstream as [[res|error]|]; [|by simplify_eq..].
  destruct (ok res); cbn [negb] in Hrun.
  - destruct (body res) as [reads|]; [|by simplify_eq].
    apply relay_requests in Hrun as [-> _]. done.
  - destruct (text res) as [errText|error]; [|by simplify_eq].
    injection Hrun as Hrun. apply (f_equal snd) in Hrun. cbn [snd] in Hrun.
    subst s1. by rewrite close_requests, sendStatus_requests.
Qed.

Lemma gathering_state_open w e keyword : open (gathered w e keyword).2.
Proof.
  apply collect_open, sendStatus_keeps_open, initial_open.
Qed.

(** X15: a finished run for a request with a keyword has sent, in this
    order: the search request, if a search key is configured; one
    extraction request for each of the first eight hits that is present and
    has a link, in rank order; and, when the assembly of the references
    completed, between one and three copies of the completion request,
    whose user message is built from the gathered context. Nothing else is
    sent, so a run costs at most one search, eight extractions and three
    completion requests, and a failed search or failed extractions do not
    keep the completion request from going out. When the assembly threw,
    no completion request is sent: the run ends with the error logged, one
    System Error frame and the close. *)
Theorem requests_of_run fuel w e keyword final :
  Js.truthy keyword = true ->
  start fuel w e keyword = Some final ->
  let gathering :=
    (if Js.truthy (SERPER_API_KEY e)
     then [searchRequest keyword (SERPER_API_KEY e)] else [])
    ++ extractRequests (JINA_API_KEY e) (take 8 (searchHits w e keyword)) in
  length (extractRequests (JINA_API_KEY e) (take 8 (searchHits w e keyword)))
  <= 8
  /\ (forall searchContext,
        (gathered w e keyword).1 = Js.fulfilled searchContext ->
        exists n,
          1 <= n <= 3
          /\ requests (trace final)
             = gathering
               ++ replicate n (completionRequest e (default [] keyword)
                                 searchContext))
  /\ (forall error,
        (gathered w e keyword).1 = Js.rejected error ->
        requests (trace final) = gathering
        /\ trace final = trace (gathered w e keyword).2 ++ failure_tail error).
Proof.
  intros Hk. unfold start.
  destruct (attempt fuel w e keyword initial) as [[out s1]|] eqn:Hrun; [|done].
  pose proof (attempt_requests fuel w e keyword out s1 Hk Hrun) as Hreq.
  destruct (collect_run w e keyword
              (sendStatus (msg_searching (default [] keyword)) initial)
              eq_refl Hk) as (_ & _ & _ & Hgather).
  fold (gathered w e keyword) in Hgather.
  change (requests (trace (sendStatus ?t initial))) with (@nil request)
    in Hgather.
  cbn [app] in Hgather.
  intros Hfinal. cbv zeta. split; [|split].
  - etrans; [apply extractRequests_length|]. rewrite length_take. lia.
  - intros searchContext Hctx. rewrite Hctx in Hreq.
    destruct Hreq as (n & Hn & Hreq). exists n. split; [done|].
    assert (requests (trace final) = requests (trace s1)) as ->.
    { destruct out; injection Hfinal as <-; rewrite close_requests;
        [done|]. by rewrite sendStatus_requests; read_trace. }
    rewrite Hreq, Hgather. by rewrite <- !app_assoc.
  - intros error Hctx. rewrite Hctx in Hreq. destruct Hreq as [-> ->].
    destruct (gathering_state_open w e keyword) as [Hc _].
    rewrite sendStatus_open, close_open in Hfinal by exact Hc.
    injection Hfinal as <-. cbn [snd emit trace failure_tail]. split.
    + read_trace.
    + by rewrite <- !app_assoc.
Qed.

Lemma requests_of_run_witness :
  exists final n searchContext,
    start 3 stalled_world with_search shoes = Some final
    /\ 1 <= n <= 3
    /\ requests (trace final)
       = ([searchRequest shoes (SERPER_API_KEY with_search)]
          ++ extractRequests (JINA_API_KEY with_search)
               (take 8 (searchHits stalled_world with_search shoes)))
         ++ replicate n (completionRequest with_search (default [] shoes)
                           searchContext).
Proof.
  destruct (start 3 stalled_world with_search shoes) as [final|] eqn:Hstart;
    [|vm_compute in Hstart; discriminate].
  destruct (gathered stalled_world with_search shoes).1 as [searchContext|error]
    eqn:Hctx; [|vm_compute in Hctx; discriminate].
  destruct (proj1 (proj2 (requests_of_run 3 stalled_world with_search shoes final
                            eq_refl Hstart)) searchContext Hctx)
    as (n & Hn & Hreq).
  by exists final, n, searchContext.
Defined.

(** ** Complete runs *)

Lemma relayed_status_frames tr :
  Forall (fun f => match f with Status _ => True | _ => False end) (delivered tr) ->
  relayed tr = [].
Proof.
  unfold relayed. induction (delivered tr) as [|f fs IH]; [done|].
  intros Hall. inversion_clear Hall as [|? ? Hf Hfs].
  destruct f; [|done..]. cbn [omap list_omap]. by apply IH.
Qed.

Lemma gathered_relayed w e keyword evs :
  Js.truthy keyword = true -> delivered evs = [] ->
  relayed (trace (gathered w e keyword).2 ++ evs) = [].
Proof.
  intros Hk Hevs. apply relayed_status_frames.
  rewrite delivered_app, Hevs, app_nil_r. unfold gathered.
  destruct (collect_run w e keyword
              (sendStatus (msg_searching (default [] keyword)) initial)
              eq_refl Hk) as (_ & _ & -> & _).
  rewrite sendStatus_open by done.
  repeat case_match; repeat constructor.
Qed.

(** X16: when the gathering stage yielded a context, the handshake made
    with it succeeds and the body settles, the run is, after the
    gathering stage and the handshake, exactly the relay of the body
    followed by its ending: after end of stream the stream is closed; after
    a read error the error is logged, reported in one System Error frame
    with its message, and the stream is closed. The chunks the client gets
    are the chunks produced before the ending, so chunks that arrived
    before a read error are still delivered. *)
Theorem start_relays extra w e keyword searchContext res evs reads :
  Js.truthy keyword = true ->
  (gathered w e keyword).1 = Js.fulfilled searchContext ->
  fetchWithRetry (completionRequest e (default [] keyword) searchContext)
    (completion w) 2 = (Some (Js.fulfilled res), evs) ->
  ok res = true ->
  body res = Some reads ->
  settles reads = true ->
  exists final,
    start (turns reads + extra) w e keyword = Some final
    /\ closed final = true
    /\ trace final
       = trace (gathered w e keyword).2 ++ evs ++ relay_events reads
         ++ match relay_result reads with
            | Js.fulfilled _ => [Close true]
            | Js.rejected error => failure_tail error
            end
    /\ relayed (trace final) = produced reads.
Proof.
  intros Hk Hctx Hfetch Hok Hbody Hsettles.
  destruct (gathering_state_open w e keyword) as [Hc _].
  pose proof (attempts_delivers_nothing
                (completionRequest e (default [] keyword) searchContext)
                (completion w) 2 3 0) as Hsilent.
  fold (fetchWithRetry
          (completionRequest e (default [] keyword) searchContext)
          (completion w) 2) in Hsilent.
  rewrite Hfetch in Hsilent. cbn [snd] in Hsilent.
  pose proof (gathered_relayed w e keyword evs Hk Hsilent) as Hnone.
  unfold start, attempt. rewrite Hk. cbn [negb].
  unfold gathered in *.
  destruct (collect w e keyword _) as [context s0]. cbn [fst snd] in *.
  subst context. rewrite Hfetch, Hok. cbn [negb]. rewrite Hbody.
  rewrite relay_run by done.
  assert (relayed (trace s0 ++ evs ++ relay_events reads) = produced reads)
    as Hrelayed.
  { by rewrite app_assoc, relayed_app, Hnone, relayed_relay_events. }
  destruct (relay_result reads) as [[]|error].
  - rewrite close_open by exact Hc. eexists. split; [reflexivity|].
    split; [done|]. cbn [snd emit trace]. rewrite <- !app_assoc.
    split; [done|].
    rewrite !app_assoc, relayed_app, <- !app_assoc, Hrelayed. apply app_nil_r.
  - rewrite sendStatus_open by exact Hc. rewrite close_open by exact Hc.
    eexists. split; [reflexivity|]. split; [done|].
    cbn [snd emit trace failure_tail]. rewrite <- !app_assoc.
    split; [done|].
    change (?a ++ ?b ++ ?c ++ [ConsoleError] ++ ?d)
      with (a ++ b ++ c ++ ([ConsoleError] ++ d)).
    rewrite 2!app_assoc, <- (app_assoc (trace s0)), relayed_app, Hrelayed.
    apply app_nil_r.
Qed.

Lemma start_relays_witness :
  exists final,
    start (turns broken_body + 0) broken_world no_keys shoes = Some final
    /\ relayed (trace final) = [[100%N]].
Proof.
  destruct (start_relays 0 broken_world no_keys shoes fallback_context
              (streaming broken_body)
              [Fetched (completionRequest no_keys (Js.lit "best running shoes")
                          fallback_context)]
              broken_body)
    as (final & Hstart & _ & _ & Hrelayed); [reflexivity..|].
  exists final. split; [exact Hstart|exact Hrelayed].
Defined.

(** X17: once the gathering stage has yielded a context, whatever fails
    between it and the relay ends the run the same way: the error is
    logged, one System Error frame carries its message, and the stream is
    closed once. That covers an error thrown
    by [fetchWithRetry] (an abort, or a network error on the last attempt),
    an error response whose text cannot be read, and a successful response
    that has no body. No AI Error frame is sent in these cases. *)
Theorem start_reports_failure fuel w e keyword searchContext error evs :
  Js.truthy keyword = true ->
  (gathered w e keyword).1 = Js.fulfilled searchContext ->
  let handshake :=
    fetchWithRetry
      (completionRequest e (default [] keyword) searchContext)
      (completion w) 2 in
  handshake = (Some (Js.rejected error), evs)
  \/ (exists res,
        handshake = (Some (Js.fulfilled res), evs)
        /\ ok res = false /\ text res = Js.rejected error)
  \/ (exists res,
        handshake = (Some (Js.fulfilled res), evs)
        /\ ok res = true /\ body res = None
        /\ error = TypeError "Cannot read properties of null (reading 'getReader')") ->
  exists final,
    start fuel w e keyword = Some final
    /\ closed final = true
    /\ trace final = trace (gathered w e keyword).2 ++ evs ++ failure_tail error
    /\ delivered (trace final)
       = delivered (trace (gathered w e keyword).2)
         ++ [Status (msg_system_error (Js.message error))].
Proof.
  intros Hk Hctx handshake Hcases. subst handshake.
  destruct (gathering_state_open w e keyword) as [Hc _].
  assert (delivered evs = []) as Hsilent.
  { pose proof (attempts_delivers_nothing
                  (completionRequest e (default [] keyword) searchContext)
                  (completion w) 2 3 0) as Hs.
    fold (fetchWithRetry
            (completionRequest e (default [] keyword) searchContext)
            (completion w) 2) in Hs.
    by destruct Hcases as [H|[(res & H & _)|(res & H & _)]];
      rewrite H in Hs. }
  unfold start, attempt. rewrite Hk. cbn [negb].
  unfold gathered in *.
  destruct (collect w e keyword _) as [context s0]. cbn [fst snd] in *.
  subst context.
  assert (exists out,
    (let '(upstreamResponse, evs0) :=
       fetchWithRetry (completionRequest e (default [] keyword) searchContext)
         (completion w) 2 in
     match upstreamResponse with
     | Some (Js.fulfilled res) =>
         if negb (ok res)
         then match text res with
              | Js.fulfilled errText =>
                  Some (close (sendStatus (msg_ai_error (status res) errText)
                                 (emit evs0 s0)))
              | Js.rejected error0 => Some (Js.rejected error0, emit evs0 s0)
              end
         else match body res with
              | Some reads => relay fuel (read_next reads) (emit evs0 s0)
              | None =>
                  Some (Js.rejected
                          (TypeError "Cannot read properties of null (reading 'getReader')"),
                        emit evs0 s0)
              end
     | Some (Js.rejected error0) => Some (Js.rejected error0, emit evs0 s0)
     | None =>
         Some (Js.rejected
                 (TypeError "Cannot read properties of undefined (reading 'ok')"),
               emit evs0 s0)
     end) = out /\ out = Some (Js.rejected error, emit evs s0)) as (out & -> & ->).
  { eexists. split; [reflexivity|].
    destruct Hcases as [->|[(res & -> & Hok & Htext)|(res & -> & Hok & Hbody & ->)]].
    - done.
    - by rewrite Hok, Htext.
    - by rewrite Hok, Hbody. }
  rewrite sendStatus_open by exact Hc. rewrite close_open by exact Hc.
  eexists. split; [reflexivity|]. split; [done|].
  cbn [snd emit trace failure_tail]. split; [by rewrite <- !app_assoc|].
  read_trace. by rewrite Hsilent.
Qed.

Lemma start_reports_failure_witness :
  exists final,
    start 0 unreachable_world no_keys shoes = Some final
    /\ delivered (trace final)
       = delivered (trace (gathered unreachable_world no_keys shoes).2)
         ++ [Status (msg_system_error (Js.message AbortError))].
Proof.
  destruct (start_reports_failure 0 unreachable_world no_keys shoes
              fallback_context AbortError
              [Fetched (completionRequest no_keys (Js.lit "best running shoes")
                          fallback_context)] eq_refl eq_refl)
    as (final & Hstart & _ & _ & Hdel).
  - left. reflexivity.
  - exists final. split; [exact Hstart|exact Hdel].
Defined.

(** ** Keep-alive frames *)

Lemma keep_alives_app tr1 tr2 :
  keep_alives (tr1 ++ tr2) = keep_alives tr1 + keep_alives tr2.
Proof.
  unfold keep_alives. rewrite delivered_app.
  induction (delivered tr1) as [|f fs IH]; [done|].
  cbn [app]. rewrite !filter_cons. case_decide; cbn [length]; by rewrite IH.
Qed.

Lemma keep_alives_replicate n :
  keep_alives (replicate n (Enqueue KeepAlive true)) = n.
Proof.
  induction n as [|n IH]; [done|].
  change (replicate (S n) ?e) with ([e] ++ replicate n e).
  by rewrite keep_alives_app, IH.
Qed.

Lemma keep_alives_relay_events reads :
  keep_alives (relay_events reads) = stalls reads.
Proof.
  induction reads as [|[d r] rest IH]; [done|].
  cbn [relay_events stalls]. rewrite keep_alives_app, keep_alives_replicate.
  destruct r as [[value|]|error]; [|done..].
  change (?e :: relay_events rest) with ([e] ++ relay_events rest).
  by rewrite keep_alives_app, IH.
Qed.

Lemma stalls_quick reads :
  Forall (fun r => (latency r <= 15000)%N) reads -> stalls reads = 0.
Proof.
  induction 1 as [|[d r] rest Hd _ IH]; [done|].
  cbn [stalls]. cbn [latency] in Hd.
  assert (ticks d = 0) as ->.
  { destruct (ticks_bounds d) as [_ [Hz|Hlo]]; [done|].
    unfold KEEP_ALIVE_MS in Hlo. lia. }
  by destruct r as [[value|]|error].
Qed.

(** X18: relaying a body that settles puts exactly one keep-alive frame on
    the stream for every 15 seconds that a read, the final one included,
    keeps the loop waiting: a read of latency [d] with
    [15000 n < d <= 15000 (n + 1)] costs [n] frames, one of at most 15
    seconds none. A body whose reads all settle within 15 seconds is
    relayed without any keep-alive frame. *)
Theorem keep_alive_count reads s extra :
  settles reads = true ->
  closed s = false ->
  exists final,
    relay (turns reads + extra) (read_next reads) s
    = Some (relay_result reads, final)
    /\ keep_alives (trace final) = keep_alives (trace s) + stalls reads
    /\ (Forall (fun r => (latency r <= 15000)%N) reads ->
        keep_alives (trace final) = keep_alives (trace s))
    /\ (forall d n,
          (15000 * N.of_nat n < d <= 15000 * (N.of_nat n + 1))%N ->
          ticks d = n)
    /\ (forall d, (d <= 15000)%N -> ticks d = 0).
Proof.
  intros Hs Hc. eexists. split; [by apply relay_run|].
  cbn [emit trace]. rewrite keep_alives_app, keep_alives_relay_events.
  split; [done|]. split; [by intros ->%stalls_quick|]. split.
  - intros d n Hd. destruct (ticks_bounds d) as [Hhi Hlo].
    unfold KEEP_ALIVE_MS in *. destruct Hlo as [Hz|Hlo]; [rewrite Hz in *|]; lia.
  - intros d Hd. destruct (ticks_bounds d) as [_ [Hz|Hlo]]; [done|].
    unfold KEEP_ALIVE_MS in *. lia.
Qed.

Lemma keep_alive_count_witness :
  exists final,
    relay (turns broken_body + 0) (read_next broken_body) initial
    = Some (relay_result broken_body, final)
    /\ keep_alives (trace final) = keep_alives (trace initial) + stalls broken_body.
Proof.
  destruct (keep_alive_count broken_body initial 0 eq_refl eq_refl)
    as (final & Hrun & Hcount & _).
  exists final. split; [exact Hrun|exact Hcount].
Defined.

(** ** A body that goes silent *)

Lemma chunks_only_next reads :
  Forall (fun p => is_value p = true) reads -> chunks_only (read_next reads).
Proof.
  intros Hall. unfold chunks_only, read_next. cbn [readPromise reader].
  destruct Hall as [|p rest Hp Hrest]; [done|]. done.
Qed.

Lemma relay_chunks_only fuel : forall r s,
  closed s = false -> chunks_only r -> relay fuel r s = None.
Proof.
  induction fuel as [|fuel IH]; intros [pending rest] s Hc [Hp Hrest]; [done|].
  cbn [readPromise reader] in Hp, Hrest. cbn [relay].
  destruct pending as [[d res]|].
  - cbn in Hp. unfold is_value in Hp. cbn [result] in Hp.
    destruct res as [[value|]|error]; try done.
    destruct (decide (d <= KEEP_ALIVE_MS)%N) as [Hd|Hd].
    + rewrite iteration_chunk by done.
      apply IH; [done|]. by apply chunks_only_next.
    + rewrite iteration_timer by (done || lia).
      apply IH; [done|]. split; [done|exact Hrest].
  - cbn [iteration readPromise]. rewrite keep_alive_caught by done.
    apply IH; [done|]. split; [done|exact Hrest].
Qed.

(** X19: the relay has no deadline of its own. When, after a handshake
    made with the gathered context, the upstream sends only chunks and then
    goes silent without ending the stream or failing, the loop keeps
    trading timer expiries for keep-alive frames: however many
    turns it is given, the run has not finished and the stream has not been
    closed. *)
Theorem silent_upstream_never_closes w e keyword searchContext res evs reads :
  Js.truthy keyword = true ->
  (gathered w e keyword).1 = Js.fulfilled searchContext ->
  fetchWithRetry (completionRequest e (default [] keyword) searchContext)
    (completion w) 2 = (Some (Js.fulfilled res), evs) ->
  ok res = true ->
  body res = Some reads ->
  Forall (fun p => is_value p = true) reads ->
  forall fuel, start fuel w e keyword = None.
Proof.
  intros Hk Hctx Hfetch Hok Hbody Hall fuel.
  destruct (gathering_state_open w e keyword) as [Hc _].
  unfold start, attempt. rewrite Hk. cbn [negb]. unfold gathered in *.
  destruct (collect w e keyword _) as [context s0]. cbn [fst snd] in *.
  subst context. rewrite Hfetch, Hok. cbn [negb]. rewrite Hbody.
  by rewrite relay_chunks_only by (done || by apply chunks_only_next).
Qed.

Lemma silent_upstream_never_closes_witness :
  start 1000 silent_world no_keys shoes = None.
Proof.
  apply (silent_upstream_never_closes silent_world no_keys shoes
           fallback_context (streaming silent_body)
           [Fetched (completionRequest no_keys (Js.lit "best running shoes")
                       fallback_context)] silent_body);
    try reflexivity.
  repeat constructor.
Defined.

(** ** Prompt builder *)

Lemma trim_start_spaces pre rest :
  Forall (fun c => Js.is_space c = true) pre ->
  Js.trim_start (pre ++ rest) = Js.trim_start rest.
Proof.
  induction 1 as [|c pre Hc _ IH]; [done|].
  cbn [app Js.trim_start]. by rewrite Hc.
Qed.

Lemma trim_start_stops c rest :
  Js.is_space c = false -> Js.trim_start (c :: rest) = c :: rest.
Proof. intros Hc. cbn [Js.trim_start]. by rewrite Hc. Qed.

Lemma trim_start_head l c :
  head l = Some c -> Js.is_space c = false -> Js.trim_start l = l.
Proof. destruct l as [|c0 l]; [done|]. intros [= ->]. apply trim_start_stops. Qed.

Lemma head_app_cons {A} (l1 l2 : list A) c :
  head l1 = Some c -> head (l1 ++ l2) = Some c.
Proof. by destruct l1. Qed.

Lemma trim_between pre core post c c' :
  Forall (fun c => Js.is_space c = true) pre ->
  Forall (fun c => Js.is_space c = true) post ->
  head core = Some c -> Js.is_space c = false ->
  list.last core = Some c' -> Js.is_space c' = false ->
  Js.trim (pre ++ core ++ post) = core.
Proof.
  intros Hpre Hpost Hhead Hc Hlast Hc'. unfold Js.trim.
  rewrite trim_start_spaces by done.
  rewrite (trim_start_head (core ++ post) c) by (by apply head_app_cons || done).
  apply list.last_Some in Hlast as [core' ->].
  rewrite !reverse_app, reverse_singleton. cbn [app].
  rewrite trim_start_spaces by (by apply Forall_reverse).
  rewrite trim_start_stops by done.
  by rewrite reverse_cons, reverse_involutive.
Qed.

Lemma last_app_snoc {A} (l1 l2 : list A) c :
  list.last l2 = Some c -> list.last (l1 ++ l2) = Some c.
Proof.
  intros [l ->]%list.last_Some. rewrite app_assoc.
  apply list.last_snoc.
Qed.

(** X20: the user message is the fixed template with the keyword and the
    context put in as they are: [trim] removes only the template's own
    leading line break and trailing blanks, never a character of the
    keyword or of the context, whatever they contain. *)
Theorem userMessage_embeds_verbatim keyword searchContext :
  userMessage keyword searchContext
  = prompt_head ++ keyword ++ prompt_middle ++ searchContext ++ prompt_tail.
Proof.
  unfold userMessage.
  transitivity
    (Js.trim (Js.nl
              ++ (prompt_head ++ keyword ++ prompt_middle ++ searchContext
                  ++ prompt_tail)
              ++ (Js.nl ++ Js.lit "        "))).
  { f_equal. unfold prompt_head, prompt_middle, prompt_tail.
    rewrite <- !app_assoc. reflexivity. }
  apply (trim_between _ _ _ 20316%N 65311%N).
  - repeat constructor.
  - vm_compute. repeat constructor.
  - apply head_app_cons. vm_compute. reflexivity.
  - vm_compute. reflexivity.
  - do 4 apply last_app_snoc. vm_compute. reflexivity.
  - vm_compute. reflexivity.
Qed.
